(** * DailyUpdate: the daily digest pipeline

    A shallow embedding of the Flask application's batch pipeline:
    - [news_service.py]  : [NewsService.fetch_ai_news] and its helpers,
    - [scheduler_service.py] : [send_daily_news] and [start_scheduler],
    - [routes.py] : the two subscription routes,
    - [models.py] : the [User] and [EmailLog] rows.

    Python values that reach the code from outside (the decoded JSON body of
    the news provider, the JSON body of an API request) are kept dynamically
    typed, as [PyVal].  A Python [str] is a [string]; one character of the
    [string] stands for one code point (below 256). *)

From Stdlib Require Import List String Ascii ZArith Bool Arith Lia.
From Stdlib Require Import Floats.PrimFloat.
Import ListNotations.
Local Open Scope string_scope.
Local Open Scope list_scope.

(* ================================================================== *)
(** ** Python values and exceptions *)

Module Py.

(** What [json.loads] can produce. *)
#[warnings="-register-all"]
Inductive PyVal : Type :=
| PNone
| PBool (b : bool)
| PInt (z : Z)
| PFloat (f : float)
| PStr (s : string)
| PList (l : list PyVal)
| PDict (d : list (string * PyVal)).

(** The exception classes the code can meet.  [RequestException] is the
    class named by the first handler of [fetch_ai_news]; the others are
    plain [Exception]s. *)
Inductive PyExn : Type :=
| RequestException (msg : string)
| TypeError (msg : string)
| AttributeError (msg : string)
| ConflictingIdError (msg : string)
| SchedulerAlreadyRunningError (msg : string)
| SQLAlchemyError (msg : string).

(** A computation that returns or raises. *)
Inductive Exc (A : Type) : Type :=
| Ok (a : A)
| Raise (e : PyExn).
Arguments Ok {A} a.
Arguments Raise {A} e.

Definition bind {A B : Type} (m : Exc A) (k : A -> Exc B) : Exc B :=
  match m with
  | Ok a => k a
  | Raise e => Raise e
  end.

Notation "x <- m ;; k" := (bind m (fun x => k))
  (at level 61, m at next level, right associativity).

(** [bool(v)] *)
Definition truthy (v : PyVal) : bool :=
  match v with
  | PNone => false
  | PBool b => b
  | PInt z => negb (z =? 0)%Z
  | PFloat f => negb (PrimFloat.eqb f 0%float)
  | PStr s => negb (String.length s =? 0)%nat
  | PList l => negb (List.length l =? 0)%nat
  | PDict d => negb (List.length d =? 0)%nat
  end.

(** [len(v)]; a dict is an association list with one pair per key. *)
Definition len (v : PyVal) : Exc nat :=
  match v with
  | PStr s => Ok (String.length s)
  | PList l => Ok (List.length l)
  | PDict d => Ok (List.length d)
  | _ => Raise (TypeError "object has no len()")
  end.

Fixpoint lookup (k : string) (d : list (string * PyVal)) : option PyVal :=
  match d with
  | [] => None
  | (k', v) :: d' => if String.eqb k k' then Some v else lookup k d'
  end.

(** [v.get(k, default)]: only a dict has the method. *)
Definition get (v : PyVal) (k : string) (default : PyVal) : Exc PyVal :=
  match v with
  | PDict d => Ok (match lookup k d with Some x => x | None => default end)
  | _ => Raise (AttributeError "object has no attribute 'get'")
  end.

Fixpoint chars (s : string) : list PyVal :=
  match s with
  | EmptyString => []
  | String c s' => PStr (String c EmptyString) :: chars s'
  end.

(** The items a [for] loop over [v] visits. *)
Definition iter (v : PyVal) : Exc (list PyVal) :=
  match v with
  | PList l => Ok l
  | PStr s => Ok (chars s)
  | PDict d => Ok (map (fun kv => PStr (fst kv)) d)
  | _ => Raise (TypeError "object is not iterable")
  end.

(** [v != s] for a string literal [s]. *)
Definition ne_str (v : PyVal) (s : string) : bool :=
  match v with
  | PStr t => negb (String.eqb t s)
  | _ => true
  end.

End Py.

(* ================================================================== *)
(** ** news_service.py *)

Module NewsService.
Import Py.

(** One entry of the list [fetch_ai_news] returns: a dict with exactly the
    keys ['title'], ['url'] and ['description']. *)
Record Article : Type := mkArticle {
  title : PyVal;
  url : PyVal;
  description : PyVal
}.

(** [description[:247] + '...'] *)
Definition slice_ellipsis (description : PyVal) : Exc PyVal :=
  match description with
  | PStr s => Ok (PStr (substring 0 247 s ++ "..."))
  | PList _ => Raise (TypeError "can only concatenate list to list")
  | _ => Raise (TypeError "object is not subscriptable")
  end.

Definition _truncate_description (description : PyVal) : Exc PyVal :=
  n <- len description ;;
  if (250 <? n)%nat then slice_ellipsis description else Ok description.

Definition get_fallback_news : list Article :=
  [ mkArticle
      (PStr "Latest Developments in Artificial Intelligence Research")
      (PStr "https://www.nature.com/subjects/machine-learning")
      (PStr "Stay updated with cutting-edge research in AI and machine learning from leading scientific journals and institutions worldwide.");
    mkArticle
      (PStr "AI Industry Trends and Market Analysis")
      (PStr "https://www.mckinsey.com/capabilities/quantumblack/our-insights")
      (PStr "Comprehensive analysis of AI adoption trends, market opportunities, and business transformation strategies across industries.");
    mkArticle
      (PStr "OpenAI and AI Safety Research Updates")
      (PStr "https://openai.com/research")
      (PStr "Latest research publications and safety developments from OpenAI and other leading AI research organizations.");
    mkArticle
      (PStr "Machine Learning Tools and Frameworks")
      (PStr "https://github.com/topics/machine-learning")
      (PStr "Discover new tools, libraries, and frameworks that are shaping the future of machine learning development.");
    mkArticle
      (PStr "AI Ethics and Responsible AI Development")
      (PStr "https://www.partnershiponai.org")
      (PStr "Important discussions on AI ethics, bias mitigation, and responsible development practices in artificial intelligence.") ].

(** What [requests.get(self.base_url, params=params, timeout=10)] does:
    it raises (connection error, timeout) or hands back a response with a
    status code and a body that decodes as JSON or does not. *)
Record Response : Type := mkResponse {
  status_code : Z;
  json_body : option PyVal
}.

Inductive GetResult : Type :=
| GetRaises (msg : string)
| GetReturns (r : Response).

(** [response.raise_for_status()]: an [HTTPError] for 4xx and 5xx. *)
Definition raise_for_status (r : Response) : Exc unit :=
  if ((400 <=? status_code r) && (status_code r <? 600))%Z
  then Raise (RequestException "HTTPError")
  else Ok tt.

(** [response.json()] *)
Definition json (r : Response) : Exc PyVal :=
  match json_body r with
  | Some v => Ok v
  | None => Raise (RequestException "JSONDecodeError")
  end.

(** One turn of the loop over [articles]: the updated [news_data]. *)
Definition keep_article (news_data : list Article) (article : PyVal)
  : Exc (list Article) :=
  t <- get article "title" PNone ;;
  if negb (truthy t) then Ok news_data else
  u <- get article "url" PNone ;;
  if negb (truthy u) then Ok news_data else
  d <- get article "description" PNone ;;
  if negb (truthy d) then Ok news_data else
  if negb (ne_str t "[Removed]") then Ok news_data else
  d' <- _truncate_description d ;;
  Ok (news_data ++ [mkArticle t u d']).

Fixpoint for_articles (news_data : list Article) (articles : list PyVal)
  : Exc (list Article) :=
  match articles with
  | [] => Ok news_data
  | article :: rest =>
      news_data' <- keep_article news_data article ;;
      for_articles news_data' rest
  end.

(** [not self.api_key], the key being [os.environ.get('NEWS_API_KEY')]. *)
Definition no_api_key (api_key : option string) : bool :=
  match api_key with
  | None => true
  | Some k => (String.length k =? 0)%nat
  end.

(** The body of the [try] in [fetch_ai_news]. *)
Definition fetch_try (api_key : option string) (got : GetResult)
  : Exc (list Article) :=
  if no_api_key api_key then Ok get_fallback_news else
  match got with
  | GetRaises msg => Raise (RequestException msg)
  | GetReturns response =>
      _ <- raise_for_status response ;;
      data <- json response ;;
      articles <- get data "articles" (PList []) ;;
      items <- iter articles ;;
      news_data <- for_articles [] items ;;
      Ok (firstn 5 news_data)
  end.

(** Both handlers return the fallback list. *)
Definition fetch_ai_news (api_key : option string) (got : GetResult)
  : list Article :=
  match fetch_try api_key got with
  | Ok news => news
  | Raise (RequestException _) => get_fallback_news
  | Raise _ => get_fallback_news
  end.

(** *** test_api_connection *)

(** The second component of the pair [test_api_connection] returns: one of
    the two fixed texts, or ['API connection failed: '] followed by the text
    of the exception caught. *)
Inductive ConnectionReport : Type :=
| NotConfigured
| ConnectionSuccessful
| ConnectionFailed (e : PyExn).

(** The body of the [try] in [test_api_connection]; [got] is what
    [requests.get(self.base_url, params=params, timeout=5)] does. *)
Definition connection_try (api_key : option string) (got : GetResult)
  : Exc (bool * ConnectionReport) :=
  if no_api_key api_key then Ok (false, NotConfigured) else
  match got with
  | GetRaises msg => Raise (RequestException msg)
  | GetReturns response =>
      _ <- raise_for_status response ;;
      Ok (true, ConnectionSuccessful)
  end.

Definition test_api_connection (api_key : option string) (got : GetResult)
  : bool * ConnectionReport :=
  match connection_try api_key got with
  | Ok r => r
  | Raise e => (false, ConnectionFailed e)
  end.

End NewsService.

(* ================================================================== *)
(** ** models.py *)

Module Models.

(** A [datetime], as a count of clock ticks. *)
Definition datetime : Type := Z.
Bind Scope Z_scope with datetime.

(** Table [users]; [id] is the primary key and [email] is unique. *)
Record User : Type := mkUser {
  id : Z;
  email : string;
  date_subscribed : datetime;
  is_active : bool;
  last_email_sent : option datetime
}.

(** Table [email_logs], with the columns the code sets.  The columns [id]
    and [email_sent_at] are filled by the store when the row is inserted. *)
Record EmailLog : Type := mkEmailLog {
  user_id : Z;
  articles_count : nat;
  status : string;
  error_message : option string
}.

(** The committed content of the two tables. *)
Record DB : Type := mkDB {
  users : list User;
  email_logs : list EmailLog
}.

Definition set_last_email_sent (u : User) (t : datetime) : User :=
  mkUser (id u) (email u) (date_subscribed u) (is_active u) (Some t).

Definition set_error_message (l : EmailLog) (m : string) : EmailLog :=
  mkEmailLog (user_id l) (articles_count l) (status l) (Some m).

(** [existing_user.is_active = True; existing_user.date_subscribed = t] *)
Definition reactivate (u : User) (t : datetime) : User :=
  mkUser (id u) (email u) t true (last_email_sent u).

(** [User.query.filter_by(is_active=True).all()] *)
Definition active_users (db : DB) : list User :=
  filter is_active (users db).

(** [User.query.filter_by(email=e).first()] *)
Definition first_by_email (db : DB) (e : string) : option User :=
  find (fun u => String.eqb (email u) e) (users db).

(** The primary-key constraint on [users.id], as a check. *)
Fixpoint distinct (ids : list Z) : bool :=
  match ids with
  | [] => true
  | i :: rest => negb (existsb (Z.eqb i) rest) && distinct rest
  end.

Definition primary_key (db : DB) : bool := distinct (map id (users db)).

(** A session: the loaded objects (possibly mutated) and the rows added
    with [db.session.add]. *)
Record Session : Type := mkSession {
  objects : list User;
  pending : list EmailLog
}.

(** The row of [r] as the session sees it: the loaded object with [r]'s
    primary key when there is one. *)
Definition current (objs : list User) (r : User) : User :=
  match find (fun o => (id o =? id r)%Z) objs with
  | Some o => o
  | None => r
  end.

(** A successful [db.session.commit()]: every loaded object is written to
    its row and every pending row is inserted, in one transaction. *)
Definition commit (db : DB) (s : Session) : DB :=
  mkDB (map (current (objects s)) (users db)) (email_logs db ++ pending s).

(** [user.is_active = False] *)
Definition deactivate (u : User) : User :=
  mkUser (id u) (email u) (date_subscribed u) false (last_email_sent u).

End Models.

(* ================================================================== *)
(** ** scheduler_service.py *)

Module Scheduler.
Import Py NewsService Models.

(** What [send_news_email(user.email, news_articles)] does: it returns a
    flag or raises an exception [e] whose text [str(e)] is kept.  The
    function does not change the list it is handed.

    Building an [EmailLog] and queueing it with [db.session.add] happen in
    memory and are taken to succeed, so the [except: pass] around the second
    [db.session.add] is never entered; the same holds for the query that
    loads the subscribers, so the outermost handler is never entered. *)
Inductive SendResult : Type :=
| Returns (success : bool)
| Raises (text : string).

(** What the job sees of its surroundings.  The [k]-th call of
    [send_news_email] and the clock reading that follows it are indexed by
    [k], counted from 0. *)
Record World : Type := mkWorld {
  api_key : option string;
  news_api : GetResult;
  send_news_email : nat -> string -> list Article -> SendResult;
  utcnow : nat -> datetime;
  commit_error : option string
}.

(** What the job does to its surroundings, in order: the lines it prints
    and the calls it makes. *)
Inductive Event : Type :=
| PrintStarting
| PrintFound (n : nat)
| PrintNoSubscribers
| FetchNews
| PrintNoArticles
| PrintSending (n : nat)
| SendMail (to : string) (articles : list Article)
| PrintSent (to : string)
| PrintFailed (to : string)
| PrintError (to : string) (text : string)
| Commit
| PrintCommitError (text : string)
| Rollback
| PrintCompleted (successful failed articles : nat).

(** The variables of the loop over [users]. *)
Record Loop : Type := mkLoop {
  successful_sends : nat;
  failed_sends : nat;
  session : Session;
  out : list Event
}.

Definition add (s : Session) (row : EmailLog) : Session :=
  mkSession (objects s) (pending s ++ [row]).

(** [user] was loaded by the query; [touch] records its state after the
    turn of the loop that handled it. *)
Definition touch (s : Session) (user : User) : Session :=
  mkSession (objects s ++ [user]) (pending s).

(** One turn of [for user in users], the [k]-th. *)
Definition send_to (w : World) (news_articles : list Article)
           (st : Loop) (k : nat) (user : User) : Loop :=
  let called := out st ++ [SendMail (email user) news_articles] in
  match send_news_email w k (email user) news_articles with
  | Returns success =>
      let email_log :=
        mkEmailLog (id user) (List.length news_articles)
                   (if success then "sent" else "failed") None in
      if success then
        mkLoop (S (successful_sends st)) (failed_sends st)
               (add (touch (session st)
                           (set_last_email_sent user (utcnow w k)))
                    email_log)
               (called ++ [PrintSent (email user)])
      else
        mkLoop (successful_sends st) (S (failed_sends st))
               (add (touch (session st) user)
                    (set_error_message email_log "Failed to send email"))
               (called ++ [PrintFailed (email user)])
  | Raises text =>
      let error_log :=
        mkEmailLog (id user) (List.length news_articles) "failed" (Some text) in
      mkLoop (successful_sends st) (S (failed_sends st))
             (add (touch (session st) user) error_log)
             (called ++ [PrintError (email user) text])
  end.

Fixpoint for_users (w : World) (news_articles : list Article)
         (st : Loop) (k : nat) (users : list User) : Loop :=
  match users with
  | [] => st
  | user :: rest =>
      for_users w news_articles (send_to w news_articles st k user) (S k) rest
  end.

(** What a run leaves behind: the tables, the session as it stood when the
    run ended its loop (empty when the run returned before the loop), and
    what it printed and called. *)
Record Run : Type := mkRun {
  db_after : DB;
  staged : Session;
  trace : list Event
}.

Definition send_daily_news (w : World) (db : DB) : Run :=
  let users := active_users db in
  let out0 := [PrintStarting; PrintFound (List.length users)] in
  match users with
  | [] => mkRun db (mkSession [] []) (out0 ++ [PrintNoSubscribers])
  | _ :: _ =>
      let news_articles := fetch_ai_news (api_key w) (news_api w) in
      let out1 := out0 ++ [FetchNews] in
      match news_articles with
      | [] => mkRun db (mkSession [] []) (out1 ++ [PrintNoArticles])
      | _ :: _ =>
          let out2 := out1 ++ [PrintSending (List.length news_articles)] in
          let st := for_users w news_articles
                              (mkLoop 0 0 (mkSession [] []) out2) 0 users in
          let completed :=
            PrintCompleted (successful_sends st) (failed_sends st)
                           (List.length news_articles) in
          match commit_error w with
          | None =>
              mkRun (commit db (session st)) (session st)
                    (out st ++ [Commit; completed])
          | Some text =>
              mkRun db (session st)
                    (out st ++ [Commit; PrintCommitError text; Rollback;
                                completed])
          end
      end
  end.

(** *** Reading a trace *)

(** The calls of [send_news_email], in order: recipient and digest. *)
Fixpoint mails (t : list Event) : list (string * list Article) :=
  match t with
  | [] => []
  | SendMail to articles :: t' => (to, articles) :: mails t'
  | _ :: t' => mails t'
  end.

Definition is_fetch (e : Event) : bool :=
  match e with FetchNews => true | _ => false end.



Definition is_mail (e : Event) : bool :=
  match e with SendMail _ _ => true | _ => false end.

Definition is_completed (e : Event) : bool :=
  match e with PrintCompleted _ _ _ => true | _ => false end.

Definition count (p : Event -> bool) (t : list Event) : nat :=
  List.length (filter p t).

(** The rows of a given status. *)
Definition with_status (s : string) (rows : list EmailLog) : list EmailLog :=
  filter (fun r => String.eqb (status r) s) rows.

(** *** The recurring job *)

Record CronTrigger : Type := mkCronTrigger {
  hour : Z;
  minute : Z;
  timezone : string
}.

(** A job of the scheduler; its [func] is [send_daily_news(app)]. *)
Record Job : Type := mkJob {
  job_id : string;
  name : string;
  trigger : CronTrigger;
  max_instances : nat;
  coalesce : bool
}.

(** A [BackgroundScheduler] with its default, in-memory job store: the
    jobs added while it is stopped wait in [pending_jobs], each with the
    [replace_existing] flag of its call; [jobs] is the content of the store.
    The store is kept in the order of registration. *)
Record BackgroundScheduler : Type := mkScheduler {
  daemon : bool;
  pending_jobs : list (Job * bool);
  jobs : list Job;
  running : bool
}.

Definition has_job (i : string) (js : list Job) : bool :=
  existsb (fun j => String.eqb (job_id j) i) js.

Definition replace_job (new : Job) (js : list Job) : list Job :=
  map (fun j => if String.eqb (job_id j) (job_id new) then new else j) js.

(** The scheduler's [_real_add_job]: the store takes the job; when the id
    is taken the store raises [ConflictingIdError], which is answered by
    updating the job that holds the id when [replace_existing] is set and
    is raised again otherwise. *)
Definition real_add_job (store : list Job) (new : Job)
           (replace_existing : bool) : Exc (list Job) :=
  if has_job (job_id new) store then
    if replace_existing
    then Ok (replace_job new store)
    else Raise (ConflictingIdError (job_id new))
  else Ok (store ++ [new]).

(** [scheduler.add_job(...)]: on a scheduler that is not running the job is
    only queued, with its flag; on a running one it goes to the store. *)
Definition add_job (s : BackgroundScheduler) (new : Job)
           (replace_existing : bool) : Exc BackgroundScheduler :=
  if running s then
    store <- real_add_job (jobs s) new replace_existing ;;
    Ok (mkScheduler (daemon s) (pending_jobs s) store true)
  else
    Ok (mkScheduler (daemon s) (pending_jobs s ++ [(new, replace_existing)])
                    (jobs s) false).

(** The pending jobs go to the store one after the other. *)
Fixpoint add_pending (store : list Job) (queue : list (Job * bool))
  : Exc (list Job) :=
  match queue with
  | [] => Ok store
  | (new, replace_existing) :: rest =>
      store' <- real_add_job store new replace_existing ;;
      add_pending store' rest
  end.

(** [scheduler.start()]: refused on a running scheduler; otherwise the
    pending jobs are scheduled and the scheduler runs. *)
Definition start (s : BackgroundScheduler) : Exc BackgroundScheduler :=
  if running s then Raise (SchedulerAlreadyRunningError "") else
  store <- add_pending (jobs s) (pending_jobs s) ;;
  Ok (mkScheduler (daemon s) [] store true).

(** [scheduler.get_jobs()]: the pending jobs while the scheduler is
    stopped, the content of the store once it runs. *)
Definition get_jobs (s : BackgroundScheduler) : list Job :=
  if running s then jobs s else map fst (pending_jobs s).

(** The job of lines 109-117, without its [replace_existing]. *)
Definition daily_news_job : Job :=
  mkJob "daily_news_job" "Send daily AI news at 10:00 AM IST"
        (mkCronTrigger 22 22 "Asia/Kolkata") 1 true.

(** Lines 104-117: the new scheduler after the call of [add_job], before
    [scheduler.start()]. *)
Definition scheduled : Exc BackgroundScheduler :=
  let scheduler := mkScheduler true [] [] false in
  add_job scheduler daily_news_job true.

(** [None] is the result of the [except] branch. *)
Definition start_scheduler : option BackgroundScheduler :=
  match scheduler <- scheduled ;; start scheduler with
  | Ok scheduler => Some scheduler
  | Raise _ => None
  end.

End Scheduler.

(* ================================================================== *)
(** ** routes.py *)

Module Routes.
Import Py Models.

(** *** String methods *)

Definition between (lo hi : nat) (c : ascii) : bool :=
  (lo <=? nat_of_ascii c)%nat && (nat_of_ascii c <=? hi)%nat.

(** [c.isspace()] *)
Definition is_space (c : ascii) : bool :=
  between 9 13 c || between 28 32 c ||
  (nat_of_ascii c =? 133)%nat || (nat_of_ascii c =? 160)%nat.

Fixpoint lstrip (s : string) : string :=
  match s with
  | EmptyString => EmptyString
  | String c s' => if is_space c then lstrip s' else s
  end.

Fixpoint rstrip (s : string) : string :=
  match s with
  | EmptyString => EmptyString
  | String c s' =>
      match rstrip s' with
      | EmptyString => if is_space c then EmptyString else String c EmptyString
      | r => String c r
      end
  end.

(** [s.strip()] *)
Definition strip (s : string) : string := rstrip (lstrip s).

Definition lower_char (c : ascii) : ascii :=
  if between 65 90 c || between 192 214 c || between 216 222 c
  then ascii_of_nat (nat_of_ascii c + 32)
  else c.

(** [s.lower()] *)
Fixpoint lower (s : string) : string :=
  match s with
  | EmptyString => EmptyString
  | String c s' => String (lower_char c) (lower s')
  end.

(** *** validate_email *)

Definition is_alpha (c : ascii) : bool := between 65 90 c || between 97 122 c.
Definition is_alnum (c : ascii) : bool := is_alpha c || between 48 57 c.

Definition one_of (set : string) (c : ascii) : bool :=
  existsb (Ascii.eqb c) (list_ascii_of_string set).

(** The classes [[a-zA-Z0-9._%+-]] and [[a-zA-Z0-9.-]]. *)
Definition in_local (c : ascii) : bool := is_alnum c || one_of "._%+-" c.
Definition in_domain (c : ascii) : bool := is_alnum c || one_of ".-" c.

(** The longest prefix of [l] in the class [p], and what follows it. *)
Fixpoint span (p : ascii -> bool) (l : list ascii) : list ascii * list ascii :=
  match l with
  | [] => ([], [])
  | c :: l' =>
      if p c then let (a, b) := span p l' in (c :: a, b) else ([], l)
  end.

(** [re.match(r'^[a-zA-Z0-9._%+-]+@[a-zA-Z0-9.-]+\.[a-zA-Z]{2,}$', email)
    is not None].  The local part is the longest prefix in its class and
    must be followed by ['@'].  The rest is read from its end: ['$'] also
    matches before one final newline; the letters after the last ['.'] are
    the longest run of letters at the end, at least two of them; before that
    ['.'] stands a non-empty run in the domain class. *)
Definition validate_email (email : string) : bool :=
  match span in_local (list_ascii_of_string email) with
  | (_ :: _, at_sign :: after) =>
      Ascii.eqb at_sign "@" &&
      let backwards :=
        match rev after with
        | nl :: r => if Ascii.eqb nl "010" then r else nl :: r
        | [] => []
        end in
      match span is_alpha backwards with
      | (tld, dot :: ((_ :: _) as dom)) =>
          Ascii.eqb dot "." && (2 <=? List.length tld)%nat &&
          forallb in_domain dom
      | _ => false
      end
  | _ => false
  end.

(** *** The subscription routes *)

(** The message a route flashes, with its category. *)
Inductive Flash : Type :=
| PleaseEnterAddress      (* danger *)
| PleaseEnterValidAddress (* danger *)
| AlreadySubscribed       (* info *)
| Reactivated             (* success *)
| Subscribed              (* success *)
| ErrorOccurred.          (* danger *)

Inductive Reply : Type :=
| Render (template : string)
| Redirect (endpoint : string) (message : Flash).

(** The id the store gives a new row. *)
Definition next_id (db : DB) : Z :=
  (1 + fold_right Z.max 0 (map id (users db)))%Z.

(** [User(email=e)], [db.session.add] and a successful commit: the column
    defaults fill the other fields. *)
Definition insert_user (db : DB) (e : string) (t : datetime) : DB :=
  mkDB (users db ++ [mkUser (next_id db) e t true None]) (email_logs db).

(** Mutating [existing_user] and a successful commit. *)
Definition update_user (db : DB) (u : User) : DB :=
  commit db (mkSession [u] []).

(** [subscribe()]: [form_email] is [request.form.get('email')], [now] the
    clock, [commit_error] the fault of [db.session.commit()], if any. *)
Definition subscribe (method : string) (form_email : option string)
           (now : datetime) (commit_error : option string) (db : DB)
  : DB * Reply :=
  if String.eqb method "POST" then
    let email :=
      lower (strip (match form_email with Some e => e | None => "" end)) in
    if (String.length email =? 0)%nat then
      (db, Redirect "main.subscribe" PleaseEnterAddress)
    else if negb (validate_email email) then
      (db, Redirect "main.subscribe" PleaseEnterValidAddress)
    else
      match first_by_email db email with
      | Some existing_user =>
          if is_active existing_user then
            (db, Redirect "main.home" AlreadySubscribed)
          else
            match commit_error with
            | None => (update_user db (reactivate existing_user now),
                       Redirect "main.home" Reactivated)
            | Some _ => (db, Redirect "main.subscribe" ErrorOccurred)
            end
      | None =>
          match commit_error with
          | None => (insert_user db email now, Redirect "main.home" Subscribed)
          | Some _ => (db, Redirect "main.subscribe" ErrorOccurred)
          end
      end
  else (db, Render "subscribe.html").

(** A JSON reply: the status code, the ['success'] flag and the text under
    ['message'] or ['error']. *)
Record ApiReply : Type := mkApiReply {
  code : Z;
  success : bool;
  text : string
}.

(** [v.strip().lower()]: only a [str] has the methods. *)
Definition strip_lower (v : PyVal) : Exc string :=
  match v with
  | PStr s => Ok (lower (strip s))
  | _ => Raise (AttributeError "object has no attribute 'strip'")
  end.

(** The body of the [try] in [api_subscribe]; [data] is
    [request.get_json()]. *)
Definition api_subscribe_try (data : PyVal) (now : datetime)
           (commit_error : option string) (db : DB) : Exc (DB * ApiReply) :=
  v <- get data "email" (PStr "") ;;
  email <- strip_lower v ;;
  if (String.length email =? 0)%nat || negb (validate_email email) then
    Ok (db, mkApiReply 400 false "Invalid email address")
  else
    let subscribed :=
      mkApiReply 200 true "Successfully subscribed to daily AI news!" in
    match first_by_email db email with
    | Some existing_user =>
        if is_active existing_user then
          Ok (db, mkApiReply 400 false "Email already subscribed")
        else
          match commit_error with
          | None => Ok (update_user db (reactivate existing_user now), subscribed)
          | Some e => Raise (SQLAlchemyError e)
          end
    | None =>
        match commit_error with
        | None => Ok (insert_user db email now, subscribed)
        | Some e => Raise (SQLAlchemyError e)
        end
    end.

Definition api_subscribe (data : PyVal) (now : datetime)
           (commit_error : option string) (db : DB) : DB * ApiReply :=
  match api_subscribe_try data now commit_error db with
  | Ok r => r
  | Raise _ =>
      (db, mkApiReply 500 false "An error occurred during subscription")
  end.

(** *** unsubscribe *)

(** The message [unsubscribe] flashes, with its category; the route
    redirects to ['main.home'] in every case. *)
Inductive Farewell : Type :=
| Unsubscribed         (* info *)
| AlreadyUnsubscribed  (* info *)
| NotInList            (* warning *)
| UnsubscribeError.    (* danger *)

(** [unsubscribe(email)]: the address comes from the URL and is lowered,
    not stripped. *)
Definition unsubscribe (email : string) (commit_error : option string)
           (db : DB) : DB * Farewell :=
  match first_by_email db (lower email) with
  | Some user =>
      if is_active user then
        match commit_error with
        | None => (update_user db (deactivate user), Unsubscribed)
        | Some _ => (db, UnsubscribeError)
        end
      else (db, AlreadyUnsubscribed)
  | None => (db, NotInList)
  end.

(** *** test_send_now *)

Import NewsService Scheduler.

(** The JSON reply of [test_send_now]: no subscriber (success false), the
    list under ['results'] with the article count (success true), or the
    text of the exception caught (status 500). *)
Inductive SendNowReply : Type :=
| NoActiveSubscribers
| SentNow (results : list (string * bool)) (articles_count : nat)
| SendNowError (text : string).

(** The loop of [test_send_now] from its [k]-th turn on: the results so
    far, or the text of the exception that ended it, and the calls made. *)
Fixpoint send_now_loop (w : World) (articles : list Article)
         (results : list (string * bool)) (calls : list Event)
         (k : nat) (users : list User)
  : (list (string * bool) + string) * list Event :=
  match users with
  | [] => (inl results, calls)
  | user :: rest =>
      let calls' := calls ++ [SendMail (email user) articles] in
      match send_news_email w k (email user) articles with
      | Returns success =>
          send_now_loop w articles (results ++ [(email user, success)])
                        calls' (S k) rest
      | Raises text => (inr text, calls')
      end
  end.

(** [test_send_now()]: the reply and the calls made.  The route reads the
    tables and writes nothing to them. *)
Definition test_send_now (w : World) (db : DB) : SendNowReply * list Event :=
  match active_users db with
  | [] => (NoActiveSubscribers, [])
  | users =>
      let fetched := fetch_ai_news (api_key w) (news_api w) in
      let articles :=
        match fetched with
        | [] => get_fallback_news
        | _ :: _ => fetched
        end in
      match send_now_loop w articles [] [FetchNews] 0 users with
      | (inl results, calls) => (SentNow results (List.length articles), calls)
      | (inr text, calls) => (SendNowError text, calls)
      end
  end.

End Routes.

(* ================================================================== *)
(** ** Vocabulary of the statements *)

Import Py NewsService Models Scheduler.

(** What every entry of a digest has: a non-empty title, URL and
    description, a title other than the tombstone, and a description of
    length at most 250. *)
Definition presentable (a : Article) : Prop :=
  truthy (title a) = true /\
  truthy (url a) = true /\
  truthy (description a) = true /\
  title a <> PStr "[Removed]" /\
  exists n, len (description a) = Ok n /\ n <= 250.


(** The [k]-th call of the run, made for [u]. *)
Definition outcome (w : World) (news : list Article) (k : nat) (u : User)
  : SendResult :=
  send_news_email w k (email u) news.

(** The row the loop is expected to add for [u], read off the outcome. *)
Definition row_of (w : World) (news : list Article) (k : nat) (u : User)
  : EmailLog :=
  match outcome w news k u with
  | Returns true => mkEmailLog (id u) (List.length news) "sent" None
  | Returns false =>
      mkEmailLog (id u) (List.length news) "failed" (Some "Failed to send email")
  | Raises text => mkEmailLog (id u) (List.length news) "failed" (Some text)
  end.

(** The state the loop is expected to leave [u] in. *)
Definition object_of (w : World) (news : list Article) (k : nat) (u : User)
  : User :=
  match outcome w news k u with
  | Returns true => set_last_email_sent u (utcnow w k)
  | _ => u
  end.

(** What the turn for [u] is expected to print and call. *)
Definition events_of (w : World) (news : list Article) (k : nat) (u : User)
  : list Event :=
  [ SendMail (email u) news;
    match outcome w news k u with
    | Returns true => PrintSent (email u)
    | Returns false => PrintFailed (email u)
    | Raises text => PrintError (email u) text
    end ].

(** [map] with the position of each element, counted from [k]. *)
Fixpoint imap {A B : Type} (f : nat -> A -> B) (k : nat) (l : list A) : list B :=
  match l with
  | [] => []
  | a :: l' => f k a :: imap f (S k) l'
  end.

(** The digest of a run. *)
Definition digest (w : World) : list Article :=
  fetch_ai_news (api_key w) (news_api w).

(** What [send_daily_news] prints after the commit. *)
Definition closing (w : World) (rows : list EmailLog) : list Event :=
  let completed :=
    PrintCompleted (List.length (with_status "sent" rows))
                   (List.length (with_status "failed" rows))
                   (List.length (digest w)) in
  match commit_error w with
  | None => [completed]
  | Some text => [PrintCommitError text; Rollback; completed]
  end.

(** *** Sample inputs *)

(** No credential is configured; the second call of [send_news_email]
    raises, the others succeed; the commit goes through. *)
Definition sample_world : World :=
  mkWorld None (GetRaises "unreachable")
          (fun k _ _ => match k with 1 => Raises "boom" | _ => Returns true end)
          (fun k => 1000 + Z.of_nat k)%Z
          None.

(** As [sample_world], but every call raises an exception without text,
    such as [TimeoutError()]. *)
Definition mute_world : World :=
  mkWorld None (GetRaises "unreachable")
          (fun _ _ _ => Raises "")
          (fun k => 1000 + Z.of_nat k)%Z
          None.

Definition sample_db : DB :=
  mkDB [ mkUser 1%Z "a@x.io" 10%Z true None;
         mkUser 2%Z "b@x.io" 20%Z false None;
         mkUser 3%Z "c@x.io" 30%Z true (Some 7%Z);
         mkUser 4%Z "d@x.io" 40%Z true None ]
       [ mkEmailLog 3%Z 5 "sent" None ].

(** Nobody is subscribed. *)
Definition idle_db : DB :=
  mkDB [ mkUser 2%Z "b@x.io" 20%Z false None ] [].

(** One subscriber, active. *)
Definition lone_user : User := mkUser 2 "b@x.io" 20 true None.
Definition lone_db : DB := mkDB [lone_user] [].

(** The provider answers with no article; the commit would fail. *)
Definition quiet_world : World :=
  mkWorld (Some "key")
          (GetReturns (mkResponse 200 (Some (PDict [("articles", PList [])]))))
          (fun _ _ _ => Returns true)
          (fun k => 1000 + Z.of_nat k)%Z
          (Some "database is locked").

(** As [sample_world], but the commit fails. *)
Definition locked_world : World :=
  mkWorld None (GetRaises "unreachable")
          (fun k _ _ => match k with 1 => Raises "boom" | _ => Returns true end)
          (fun k => 1000 + Z.of_nat k)%Z
          (Some "database is locked").

(** A store that already holds a job under the id of the daily job, as a
    persistent store would after an earlier start. *)
Definition stale_job : Job :=
  mkJob "daily_news_job" "an earlier registration"
        (mkCronTrigger 10 0 "Asia/Kolkata") 3 false.

(** The jobs registered under the id [i]. *)
Definition registered (i : string) (js : list Job) : list Job :=
  filter (fun j => String.eqb (job_id j) i) js.

(** A subscriber who left after two digests, and one who stayed. *)
Definition lapsed_db : DB :=
  mkDB [ mkUser 1 "a@x.io" 10 true (Some 15%Z);
         mkUser 2 "b@x.io" 20 false (Some 15%Z) ]
       [ mkEmailLog 2 5 "sent" None;
         mkEmailLog 2 5 "failed" (Some "Failed to send email");
         mkEmailLog 1 5 "sent" None ].

(** An answer of the provider with a removed article, one without URL, one
    with a long description and one that is fine. *)
Definition long_text : string :=
  String.concat "" (repeat "0123456789" 30).

Definition sample_body : PyVal :=
  PDict [("status", PStr "ok");
         ("articles",
          PList [ PDict [("title", PStr "[Removed]"); ("url", PStr "u0");
                         ("description", PStr "gone")];
                  PDict [("title", PStr "t1"); ("url", PNone);
                         ("description", PStr "d1")];
                  PDict [("title", PStr "t2"); ("url", PStr "u2");
                         ("description", PStr long_text)];
                  PDict [("title", PStr "t3"); ("url", PStr "u3");
                         ("description", PStr "d3")] ])].

(* ================================================================== *)
(** ** Vocabulary of the further statements *)

(** [a.get(k)] for an item of the provider's list that is a dict. *)
Definition field (k : string) (a : PyVal) : PyVal :=
  match a with
  | PDict d => match lookup k d with Some x => x | None => PNone end
  | _ => PNone
  end.

Definition is_dict (a : PyVal) : bool :=
  match a with PDict _ => true | _ => false end.

(** The test of the [if] in the loop of [fetch_ai_news]. *)
Definition acceptable (a : PyVal) : bool :=
  truthy (field "title" a) && truthy (field "url" a) &&
  truthy (field "description" a) && ne_str (field "title" a) "[Removed]".

(** The entry of the digest [art] is the item [a], its description
    truncated. *)
Definition made_from (art : Article) (a : PyVal) : Prop :=
  title art = field "title" a /\
  url art = field "url" a /\
  _truncate_description (field "description" a) = Ok (description art).

(** A status code [raise_for_status] lets through. *)
Definition passes (r : Response) : Prop :=
  ~ (400 <= status_code r < 600)%Z.

(** The pattern of [validate_email], read as a decomposition of the
    address: a local part, ['@'], a domain, ['.'], a top-level part of two
    letters or more and, as ['$'] allows, at most one final newline. *)
Definition matches_pattern (email : string) : Prop :=
  exists local dom tld nl : list ascii,
    list_ascii_of_string email =
      local ++ "@"%char :: dom ++ "."%char :: tld ++ nl /\
    local <> [] /\ forallb Routes.in_local local = true /\
    dom <> [] /\ forallb Routes.in_domain dom = true /\
    2 <= List.length tld /\ forallb Routes.is_alpha tld = true /\
    (nl = [] \/ nl = ["010"%char]).

(** The part after ['@'], read from its end. *)
Definition backwards (after : list ascii) : list ascii :=
  match rev after with
  | nl :: r => if Ascii.eqb nl "010" then r else nl :: r
  | [] => []
  end.

(** The string is empty or begins with a character that is no space. *)
Definition clean_head (s : string) : Prop :=
  match s with
  | EmptyString => True
  | String c _ => Routes.is_space c = false
  end.

(** The unique constraint on [users.email], as a check. *)
Fixpoint distinct_addresses (l : list string) : bool :=
  match l with
  | [] => true
  | e :: rest => negb (existsb (String.eqb e) rest) && distinct_addresses rest
  end.

Definition unique_email (db : DB) : bool :=
  distinct_addresses (map email (users db)).

(** From [db] to [db'] the log table is the same and no subscriber record
    is removed or renumbered; at most one is added, at the end. *)
Definition keeps_records (db db' : DB) : Prop :=
  email_logs db' = email_logs db /\
  exists added,
    map id (users db') = map id (users db) ++ added /\
    List.length added <= 1.

(** The form route reports that the address is now subscribed. *)
Definition welcomed (reply : Routes.Reply) : Prop :=
  reply = Routes.Redirect "main.home" Routes.Reactivated \/
  reply = Routes.Redirect "main.home" Routes.Subscribed.

(** A subscriber who is subscribed and has been sent a digest. *)
Definition member_db : DB :=
  mkDB [ mkUser 1 "a@x.io" 10 true (Some 15%Z);
         mkUser 2 "b@x.io" 20 true (Some 15%Z) ]
       [ mkEmailLog 2 5 "sent" None; mkEmailLog 1 5 "sent" None ].

(** The list [test_send_now] sends: the digest, or the fallback list when
    the digest is empty. *)
Definition manual_digest (w : World) : list Article :=
  match digest w with
  | [] => get_fallback_news
  | _ :: _ => digest w
  end.

(** The flag the [k]-th call returns for [u], when it returns. *)
Definition flag (w : World) (news : list Article) (k : nat) (u : User) : bool :=
  match outcome w news k u with
  | Returns success => success
  | Raises _ => false
  end.

Definition returns (r : SendResult) : bool :=
  match r with Returns _ => true | Raises _ => false end.

(** An address as [subscribe] stores it: local part, ['@'], domain, ['.'],
    top-level part and nothing after it, with no capital letter. *)
Definition stored_form (email : string) : Prop :=
  (exists local dom tld : list ascii,
      list_ascii_of_string email = local ++ "@"%char :: dom ++ "."%char :: tld /\
      local <> [] /\ forallb Routes.in_local local = true /\
      dom <> [] /\ forallb Routes.in_domain dom = true /\
      2 <= List.length tld /\ forallb Routes.is_alpha tld = true) /\
  forallb (fun c => negb (Routes.between 65 90 c))
          (list_ascii_of_string email) = true.

(* ================================================================== *)
(** * Properties *)

Lemma Ok_inj {A : Type} (a b : A) : Ok a = Ok b -> a = b.
Proof. congruence. Qed.

(* ------------------------------------------------------------------ *)
(** ** The article source *)

Lemma length_prefix (n : nat) (s : string) :
  String.length (substring 0 n s) = Nat.min n (String.length s).
Proof.
  revert n; induction s as [|c s IH]; intros [|n]; simpl; auto.
Qed.

Lemma length_append (s t : string) :
  String.length (s ++ t) = String.length s + String.length t.
Proof.
  induction s as [|c s IH]; simpl; auto.
Qed.

Lemma truncated_length (s : string) :
  250 < String.length s ->
  String.length (substring 0 247 s ++ "...") = 250.
Proof.
  intros H. rewrite length_append, length_prefix.
  change (String.length "...") with 3. lia.
Qed.

Lemma truncate_presentable (d d' : PyVal) :
  _truncate_description d = Ok d' ->
  truthy d = true ->
  truthy d' = true /\ exists n, len d' = Ok n /\ n <= 250.
Proof.
  unfold _truncate_description.
  destruct d as [ | b | z | f | s | l | m]; simpl; try discriminate.
  - destruct (250 <? String.length s)%nat eqn:E; intros H T; inversion H; subst.
    + apply Nat.ltb_lt in E. simpl. rewrite (truncated_length s E).
      split; [reflexivity | exists 250; split; [reflexivity | lia]].
    + apply Nat.ltb_ge in E.
      split; [exact T | eexists; split; [reflexivity | exact E]].
  - destruct (250 <? List.length l)%nat eqn:E; intros H T; inversion H; subst.
    apply Nat.ltb_ge in E.
    split; [exact T | eexists; split; [reflexivity | exact E]].
  - destruct (250 <? List.length m)%nat eqn:E; intros H T; inversion H; subst.
    apply Nat.ltb_ge in E.
    split; [exact T | eexists; split; [reflexivity | exact E]].
Qed.

Lemma ne_str_neq (v : PyVal) (s : string) :
  ne_str v s = true -> v <> PStr s.
Proof.
  destruct v; simpl; try discriminate.
  intros H E. inversion E; subst. rewrite String.eqb_refl in H. discriminate.
Qed.

Lemma keep_article_presentable (news_data out : list Article) (a : PyVal) :
  Forall presentable news_data ->
  keep_article news_data a = Ok out ->
  Forall presentable out.
Proof.
  intros Hin. unfold keep_article.
  destruct a as [ | b | z | f | s | l | m]; simpl; try discriminate.
  set (t := match lookup "title" m with Some x => x | None => PNone end).
  set (u := match lookup "url" m with Some x => x | None => PNone end).
  set (d := match lookup "description" m with Some x => x | None => PNone end).
  destruct (truthy t) eqn:Tt; simpl; [| intros H; inversion H; subst; exact Hin].
  destruct (truthy u) eqn:Tu; simpl; [| intros H; inversion H; subst; exact Hin].
  destruct (truthy d) eqn:Td; simpl; [| intros H; inversion H; subst; exact Hin].
  destruct (ne_str t "[Removed]") eqn:Tn; simpl;
    [| intros H; inversion H; subst; exact Hin].
  destruct (_truncate_description d) as [d'|e] eqn:Tr; simpl; try discriminate.
  intros H; inversion H; subst.
  apply Forall_app; split; [exact Hin|].
  constructor; [| constructor].
  destruct (truncate_presentable d d' Tr Td) as [T' L'].
  unfold presentable; simpl. repeat split; auto using ne_str_neq.
Qed.

Lemma for_articles_presentable (items : list PyVal) :
  forall news_data out,
    Forall presentable news_data ->
    for_articles news_data items = Ok out ->
    Forall presentable out.
Proof.
  induction items as [|a items IH]; simpl; intros news_data out Hin H.
  - inversion H; subst; exact Hin.
  - destruct (keep_article news_data a) as [nd|e] eqn:K; simpl in H;
      try discriminate.
    eapply IH; [| exact H]. eapply keep_article_presentable; eauto.
Qed.

Lemma fallback_presentable : Forall presentable get_fallback_news.
Proof.
  unfold get_fallback_news.
  repeat constructor; try discriminate;
    (eexists; split; [reflexivity | simpl; lia]).
Qed.

Lemma fetch_try_presentable (api_key : option string) (got : GetResult)
      (news : list Article) :
  fetch_try api_key got = Ok news ->
  List.length news <= 5 /\ Forall presentable news.
Proof.
  unfold fetch_try.
  destruct (no_api_key api_key).
  - intros H; inversion H; subst. split; [simpl; lia | apply fallback_presentable].
  - destruct got as [msg | r]; try discriminate.
    destruct (raise_for_status r); cbn [bind]; try discriminate.
    destruct (json r) as [data|]; cbn [bind]; try discriminate.
    destruct (get data "articles" (PList [])) as [arts|]; cbn [bind]; try discriminate.
    destruct (iter arts) as [items|]; cbn [bind]; try discriminate.
    destruct (for_articles [] items) as [nd|] eqn:F; cbn [bind]; try discriminate.
    intros H. apply Ok_inj in H. subst news. split.
    + rewrite length_firstn. lia.
    + apply for_articles_presentable in F; [| constructor].
      rewrite <- (firstn_skipn 5 nd) in F.
      apply Forall_app in F. tauto.
Qed.

Example fetch_sample :
  fetch_ai_news (Some "key") (GetReturns (mkResponse 200 (Some sample_body))) =
    [ mkArticle (PStr "t2") (PStr "u2")
                (PStr (substring 0 247 long_text ++ "..."));
      mkArticle (PStr "t3") (PStr "u3") (PStr "d3") ] /\
  fetch_ai_news (Some "key")
                (GetReturns (mkResponse 200 (Some (PList [])))) =
    get_fallback_news /\
  fetch_ai_news (Some "") (GetReturns (mkResponse 200 (Some sample_body))) =
    get_fallback_news.
Proof. repeat split; reflexivity. Qed.

(** C3: whatever the provider answers, [fetch_ai_news] returns at most five
    entries, each with a non-empty title, URL and description, a title
    other than ['[Removed]'] and a description of length at most 250; a
    description string longer than 250 characters becomes its first 247
    characters followed by ['...'], 250 characters in all, and a shorter
    one is returned as it is. *)
Theorem fetch_ai_news_bounded :
  forall (api_key : option string) (got : GetResult),
    List.length (fetch_ai_news api_key got) <= 5 /\
    Forall presentable (fetch_ai_news api_key got) /\
    forall s : string,
      (String.length s <= 250 ->
         _truncate_description (PStr s) = Ok (PStr s)) /\
      (250 < String.length s ->
         _truncate_description (PStr s) = Ok (PStr (substring 0 247 s ++ "...")) /\
         String.length (substring 0 247 s ++ "...") = 250).
Proof.
  intros api_key got.
  assert (B : List.length (fetch_ai_news api_key got) <= 5 /\
              Forall presentable (fetch_ai_news api_key got)).
  { unfold fetch_ai_news.
    destruct (fetch_try api_key got) as [news|e] eqn:T.
    - eapply fetch_try_presentable; eauto.
    - destruct e; (split; [simpl; lia | apply fallback_presentable]). }
  destruct B as [B1 B2]. repeat split; auto.
  - intros H. unfold _truncate_description; simpl.
    apply Nat.ltb_ge in H. rewrite H. reflexivity.
  - unfold _truncate_description; simpl.
    apply Nat.ltb_lt in H. rewrite H. reflexivity.
  - apply truncated_length; assumption.
Qed.


(* ------------------------------------------------------------------ *)
(** ** The article source, failing *)

Lemma no_key_fallback (api_key : option string) (got : GetResult) :
  no_api_key api_key = true -> fetch_ai_news api_key got = get_fallback_news.
Proof.
  intros H. unfold fetch_ai_news, fetch_try. rewrite H. reflexivity.
Qed.

Lemma raise_fallback (api_key : option string) (got : GetResult) (e : PyExn) :
  fetch_try api_key got = Raise e -> fetch_ai_news api_key got = get_fallback_news.
Proof.
  intros H. unfold fetch_ai_news. rewrite H. destruct e; reflexivity.
Qed.

Lemma with_key_raises (api_key : option string) (got : GetResult) :
  no_api_key api_key = false ->
  (exists msg, got = GetRaises msg) \/
  (exists r, got = GetReturns r /\ (400 <= status_code r < 600)%Z) \/
  (exists r, got = GetReturns r /\ json_body r = None) ->
  exists e, fetch_try api_key got = Raise e.
Proof.
  intros K H. unfold fetch_try. rewrite K.
  destruct H as [[msg ->] | [[r [-> S]] | [r [-> J]]]].
  - eauto.
  - unfold raise_for_status.
    replace ((400 <=? status_code r)%Z && (status_code r <? 600)%Z) with true
      by (symmetry; apply andb_true_iff; split;
          [apply Z.leb_le | apply Z.ltb_lt]; lia).
    cbn [bind]. eauto.
  - destruct (raise_for_status r); cbn [bind]; eauto.
    unfold json. rewrite J. cbn [bind]. eauto.
Qed.





(* ------------------------------------------------------------------ *)
(** ** The loop over the subscribers *)

Section Loop.

Variable w : World.
Variable news : list Article.

Lemma send_to_session (st : Loop) (k : nat) (u : User) :
  session (send_to w news st k u) =
  mkSession (objects (session st) ++ [object_of w news k u])
            (pending (session st) ++ [row_of w news k u]).
Proof.
  unfold send_to, object_of, row_of, outcome.
  destruct (send_news_email w k (email u) news) as [[|]|text]; reflexivity.
Qed.

Lemma send_to_out (st : Loop) (k : nat) (u : User) :
  out (send_to w news st k u) = out st ++ events_of w news k u.
Proof.
  unfold send_to, events_of, outcome.
  destruct (send_news_email w k (email u) news) as [[|]|text];
    simpl; rewrite <- app_assoc; reflexivity.
Qed.

Lemma send_to_counts (st : Loop) (k : nat) (u : User) :
  successful_sends (send_to w news st k u) =
    successful_sends st + List.length (with_status "sent" [row_of w news k u]) /\
  failed_sends (send_to w news st k u) =
    failed_sends st + List.length (with_status "failed" [row_of w news k u]).
Proof.
  unfold send_to, row_of, outcome.
  destruct (send_news_email w k (email u) news) as [[|]|text];
    simpl; split; lia.
Qed.

Lemma for_users_session (us : list User) :
  forall (st : Loop) (k : nat),
    session (for_users w news st k us) =
    mkSession (objects (session st) ++ imap (object_of w news) k us)
              (pending (session st) ++ imap (row_of w news) k us).
Proof.
  induction us as [|u us IH]; intros st k; simpl.
  - rewrite !app_nil_r. destruct (session st); reflexivity.
  - rewrite IH, send_to_session. simpl. rewrite <- !app_assoc. reflexivity.
Qed.

Lemma for_users_out (us : list User) :
  forall (st : Loop) (k : nat),
    out (for_users w news st k us) =
    out st ++ List.concat (imap (events_of w news) k us).
Proof.
  induction us as [|u us IH]; intros st k; simpl.
  - rewrite app_nil_r. reflexivity.
  - rewrite IH, send_to_out. rewrite <- app_assoc. reflexivity.
Qed.

Lemma with_status_app (s : string) (a b : list EmailLog) :
  with_status s (a ++ b) = with_status s a ++ with_status s b.
Proof. unfold with_status. apply filter_app. Qed.

Lemma for_users_counts (us : list User) :
  forall (st : Loop) (k : nat),
    successful_sends (for_users w news st k us) =
      successful_sends st +
      List.length (with_status "sent" (imap (row_of w news) k us)) /\
    failed_sends (for_users w news st k us) =
      failed_sends st +
      List.length (with_status "failed" (imap (row_of w news) k us)).
Proof.
  induction us as [|u us IH]; intros st k.
  - simpl. split; lia.
  - cbn [for_users imap].
    destruct (IH (send_to w news st k u) (S k)) as [S1 F1].
    destruct (send_to_counts st k u) as [S0 F0].
    rewrite S1, F1, S0, F0.
    change (row_of w news k u :: imap (row_of w news) (S k) us)
      with ([row_of w news k u] ++ imap (row_of w news) (S k) us).
    rewrite !with_status_app, !length_app. split; lia.
Qed.

End Loop.

(** *** Positions in [imap] *)

Lemma imap_length {A B : Type} (f : nat -> A -> B) (l : list A) :
  forall k, List.length (imap f k l) = List.length l.
Proof. induction l as [|a l IH]; intros k; simpl; auto. Qed.

Lemma imap_nth_error {A B : Type} (f : nat -> A -> B) (l : list A) :
  forall k i a,
    nth_error l i = Some a -> nth_error (imap f k l) i = Some (f (k + i) a).
Proof.
  induction l as [|x l IH]; intros k [|i] a H; simpl in *; try discriminate.
  - inversion H; subst. rewrite Nat.add_0_r. reflexivity.
  - rewrite (IH (S k) i a H). f_equal. f_equal. lia.
Qed.

Lemma imap_map {A B C : Type} (f : nat -> A -> B) (g : B -> C) (h : A -> C)
      (l : list A) :
  (forall k a, g (f k a) = h a) ->
  forall k, map g (imap f k l) = map h l.
Proof.
  intros E. induction l as [|a l IH]; intros k; simpl; [reflexivity|].
  rewrite E, IH. reflexivity.
Qed.

Lemma row_of_user_id (w : World) (news : list Article) (k : nat) (u : User) :
  user_id (row_of w news k u) = id u.
Proof. unfold row_of. destruct (outcome w news k u) as [[|]|]; reflexivity. Qed.

Lemma object_of_id (w : World) (news : list Article) (k : nat) (u : User) :
  id (object_of w news k u) = id u.
Proof. unfold object_of. destruct (outcome w news k u) as [[|]|]; reflexivity. Qed.

Lemma mails_app (a b : list Event) : mails (a ++ b) = mails a ++ mails b.
Proof.
  induction a as [|e a IH]; simpl; [reflexivity|].
  destruct e; simpl; rewrite ?IH; reflexivity.
Qed.

Lemma mails_loop (w : World) (news : list Article) (us : list User) :
  forall k, mails (List.concat (imap (events_of w news) k us)) =
            map (fun u => (email u, news)) us.
Proof.
  induction us as [|u us IH]; intros k; simpl; [reflexivity|].
  rewrite IH. destruct (outcome w news k u) as [[|]|]; reflexivity.
Qed.

Lemma count_app (p : Event -> bool) (a b : list Event) :
  count p (a ++ b) = count p a + count p b.
Proof. unfold count. rewrite filter_app, length_app. reflexivity. Qed.

(** The loop prints and sends; it neither fetches, commits, rolls back nor
    prints the closing counts. *)
Lemma count_loop (w : World) (news : list Article) (p : Event -> bool)
      (us : list User) :
  (forall to a, p (SendMail to a) = false) ->
  (forall to, p (PrintSent to) = false) ->
  (forall to, p (PrintFailed to) = false) ->
  (forall to t, p (PrintError to t) = false) ->
  forall k, count p (List.concat (imap (events_of w news) k us)) = 0.
Proof.
  intros P1 P2 P3 P4.
  induction us as [|u us IH]; intros k; [reflexivity|].
  cbn [imap List.concat]. rewrite count_app, IH.
  unfold events_of, count.
  destruct (outcome w news k u) as [[|]|]; simpl;
    rewrite P1, ?P2, ?P3, ?P4; reflexivity.
Qed.

(* ------------------------------------------------------------------ *)
(** ** A whole run *)

Lemma run_shape (w : World) (db : DB) :
  active_users db <> [] ->
  digest w <> [] ->
  let us := active_users db in
  let run := send_daily_news w db in
  staged run = mkSession (imap (object_of w (digest w)) 0 us)
                         (imap (row_of w (digest w)) 0 us) /\
  trace run =
    ([PrintStarting; PrintFound (List.length us); FetchNews;
      PrintSending (List.length (digest w))]
     ++ List.concat (imap (events_of w (digest w)) 0 us))
    ++ Commit :: closing w (pending (staged run)) /\
  db_after run = match commit_error w with
                 | None => commit db (staged run)
                 | Some _ => db
                 end.
Proof.
  intros Hu Hn us run. subst us run.
  unfold send_daily_news, closing. fold (digest w).
  destruct (active_users db) as [|u us] eqn:U; [congruence|].
  destruct (digest w) as [|a news] eqn:D; [congruence|].
  set (st0 := mkLoop 0 0 (mkSession [] []) _).
  pose proof (for_users_session w (a :: news) (u :: us) st0 0) as HS.
  pose proof (for_users_out w (a :: news) (u :: us) st0 0) as HO.
  destruct (for_users_counts w (a :: news) (u :: us) st0 0) as [HC HF].
  set (st := for_users w (a :: news) st0 0 (u :: us)) in *.
  cbn [session objects pending app successful_sends failed_sends out st0
       Nat.add] in HS, HO, HC, HF.
  destruct (commit_error w) as [text|];
    cbn [staged trace db_after]; rewrite HS; cbn [pending];
    rewrite HO, HC, HF; repeat split; reflexivity.
Qed.

Lemma run_rows (w : World) (db : DB) :
  active_users db <> [] ->
  digest w <> [] ->
  pending (staged (send_daily_news w db)) =
  imap (row_of w (digest w)) 0 (active_users db).
Proof.
  intros Hu Hn. destruct (run_shape w db Hu Hn) as [S _].
  rewrite S. reflexivity.
Qed.

Lemma run_mails (w : World) (db : DB) :
  active_users db <> [] ->
  digest w <> [] ->
  mails (trace (send_daily_news w db)) =
  map (fun u => (email u, digest w)) (active_users db).
Proof.
  intros Hu Hn. destruct (run_shape w db Hu Hn) as [_ [T _]].
  rewrite T, !mails_app, mails_loop. cbn [mails app].
  replace (mails (closing w _)) with (@nil (string * list Article)).
  - rewrite app_nil_r. reflexivity.
  - unfold closing. destruct (commit_error w); reflexivity.
Qed.

Lemma run_row_owners (w : World) (db : DB) :
  active_users db <> [] ->
  digest w <> [] ->
  map user_id (pending (staged (send_daily_news w db))) =
  map id (active_users db).
Proof.
  intros Hu Hn. rewrite (run_rows w db Hu Hn).
  apply imap_map. intros k u. apply row_of_user_id.
Qed.

(** C1: in a run that gets past both early returns (some subscriber is
    active, the digest is not empty) the session holds, when the loop ends,
    as many log rows as the snapshot has subscribers, and the rows belong to
    the subscribers of the snapshot, one each and in order, whatever each
    send did. *)
Theorem one_row_per_subscriber :
  forall (w : World) (db : DB),
    active_users db <> [] ->
    digest w <> [] ->
    let run := send_daily_news w db in
    List.length (pending (staged run)) = List.length (active_users db) /\
    map user_id (pending (staged run)) = map id (active_users db).
Proof.
  intros w db Hu Hn run. subst run. split.
  - rewrite (run_rows w db Hu Hn). apply imap_length.
  - apply run_row_owners; assumption.
Qed.

Lemma one_row_per_subscriber_witness :
  let run := send_daily_news sample_world sample_db in
  List.length (pending (staged run)) = List.length (active_users sample_db) /\
  map user_id (pending (staged run)) = map id (active_users sample_db).
Proof.
  apply (one_row_per_subscriber sample_world sample_db); discriminate.
Defined.

(** C2, the part that fails: a send that raises an exception without text
    is logged with an empty error detail. *)
Lemma fault_without_text_is_logged_empty :
  let run := send_daily_news mute_world lone_db in
  active_users lone_db = [lone_user] /\
  outcome mute_world (digest mute_world) 0 lone_user = Raises "" /\
  pending (staged run) = [mkEmailLog 2 5 "failed" (Some "")] /\
  ~ (exists row text,
        In row (pending (staged run)) /\
        error_message row = Some text /\ text <> "").
Proof.
  repeat split; try reflexivity.
  intros [row [text [[<- | []] [E N]]]]. simpl in E. congruence.
Qed.

(** C2, amended: a subscriber whose send returns false or raises gets one
    log row, at the subscriber's position, with status ['failed'] and, as
    error detail, ['Failed to send email'] for a false result and the text
    of the exception, whatever it is, for a raised one; the rows still match
    the snapshot one to one, and [send_news_email] is called for every
    subscriber of the snapshot, in order, with the digest of the run. *)
Theorem failure_is_logged_and_loop_goes_on :
  forall (w : World) (db : DB) (k : nat) (u : User),
    digest w <> [] ->
    nth_error (active_users db) k = Some u ->
    outcome w (digest w) k u <> Returns true ->
    let run := send_daily_news w db in
    (exists row,
        nth_error (pending (staged run)) k = Some row /\
        user_id row = id u /\
        status row = "failed" /\
        error_message row =
          Some (match outcome w (digest w) k u with
                | Raises text => text
                | Returns _ => "Failed to send email"
                end)) /\
    map user_id (pending (staged run)) = map id (active_users db) /\
    mails (trace run) = map (fun v => (email v, digest w)) (active_users db).
Proof.
  intros w db k u Hn Hk Hf run. subst run.
  assert (Hu : active_users db <> []).
  { intros E. rewrite E in Hk. destruct k; discriminate. }
  split; [| split].
  - exists (row_of w (digest w) k u).
    rewrite (run_rows w db Hu Hn).
    split; [apply (imap_nth_error _ _ 0 k u Hk) |].
    unfold row_of.
    destruct (outcome w (digest w) k u) as [[|]|text];
      [congruence | auto | auto].
  - apply run_row_owners; assumption.
  - apply run_mails; assumption.
Qed.

Lemma failure_is_logged_and_loop_goes_on_witness :
  let run := send_daily_news sample_world sample_db in
  (exists row,
      nth_error (pending (staged run)) 1 = Some row /\
      user_id row = 3%Z /\
      status row = "failed" /\
      error_message row = Some "boom") /\
  map user_id (pending (staged run)) = map id (active_users sample_db) /\
  mails (trace run) =
    map (fun v => (email v, digest sample_world)) (active_users sample_db).
Proof.
  apply (failure_is_logged_and_loop_goes_on
           sample_world sample_db 1 (mkUser 3 "c@x.io" 30 true (Some 7%Z)));
    [discriminate | reflexivity | discriminate].
Defined.

(** C5, the part that fails: with no active subscriber the run prints how
    many subscribers it found and that there are none, and returns; it
    prints no counts of successes, failures and articles, zero or other. *)
Lemma no_subscribers_no_summary :
  let run := send_daily_news sample_world idle_db in
  active_users idle_db = [] /\
  trace run = [PrintStarting; PrintFound 0; PrintNoSubscribers] /\
  ~ In (PrintCompleted 0 0 0) (trace run) /\
  count is_completed (trace run) = 0.
Proof.
  repeat split; try reflexivity.
  simpl. intros [H | [H | [H | []]]]; discriminate.
Qed.

(** C5, amended: with no active subscriber the run returns at once: it
    prints the number of subscribers found, 0, and that there are none, and
    nothing else, so no closing counts; it does not call the article
    source, sends no mail, stages no row and leaves the tables as they
    were. *)
Theorem no_subscribers_is_a_no_op :
  forall (w : World) (db : DB),
    active_users db = [] ->
    let run := send_daily_news w db in
    trace run = [PrintStarting; PrintFound 0; PrintNoSubscribers] /\
    count is_completed (trace run) = 0 /\
    count is_fetch (trace run) = 0 /\
    mails (trace run) = [] /\
    pending (staged run) = [] /\
    db_after run = db.
Proof.
  intros w db H run. subst run. unfold send_daily_news. rewrite H.
  repeat split; reflexivity.
Qed.

Lemma no_subscribers_is_a_no_op_witness :
  let run := send_daily_news sample_world idle_db in
  trace run = [PrintStarting; PrintFound 0; PrintNoSubscribers] /\
  count is_completed (trace run) = 0 /\
  count is_fetch (trace run) = 0 /\
  mails (trace run) = [] /\
  pending (staged run) = [] /\
  db_after run = idle_db.
Proof.
  apply (no_subscribers_is_a_no_op sample_world idle_db). reflexivity.
Defined.

Lemma run_without_digest (w : World) (db : DB) :
  active_users db <> [] ->
  digest w = [] ->
  let run := send_daily_news w db in
  trace run = [PrintStarting; PrintFound (List.length (active_users db));
               FetchNews; PrintNoArticles] /\
  staged run = mkSession [] [] /\
  db_after run = db.
Proof.
  intros Hu Hn run. subst run. unfold send_daily_news. fold (digest w).
  destruct (active_users db) as [|u us]; [congruence|].
  rewrite Hn. repeat split; reflexivity.
Qed.

Lemma run_fetches_once (w : World) (db : DB) :
  active_users db <> [] ->
  digest w <> [] ->
  count is_fetch (trace (send_daily_news w db)) = 1.
Proof.
  intros Hu Hn. destruct (run_shape w db Hu Hn) as [_ [T _]].
  rewrite T, !count_app, count_loop by reflexivity.
  change (Commit :: closing w ?r) with ([Commit] ++ closing w r).
  unfold closing. destruct (commit_error w); reflexivity.
Qed.

(** C6: in a run with at least one active subscriber the article source is
    called once; every call of [send_news_email] carries the list that call
    returned; when the list is not empty each subscriber of the snapshot is
    sent it, in order; when it is empty the run sends nothing, stages no
    row and leaves the tables as they were. *)
Theorem one_digest_for_all :
  forall (w : World) (db : DB),
    active_users db <> [] ->
    let run := send_daily_news w db in
    count is_fetch (trace run) = 1 /\
    Forall (fun m => snd m = digest w) (mails (trace run)) /\
    (digest w <> [] ->
       mails (trace run) =
       map (fun u => (email u, digest w)) (active_users db)) /\
    (digest w = [] ->
       mails (trace run) = [] /\
       pending (staged run) = [] /\
       db_after run = db).
Proof.
  intros w db Hu run. subst run.
  destruct (digest w) as [|a news] eqn:D.
  - destruct (run_without_digest w db Hu D) as [T [S B]].
    rewrite T, S, B. repeat split; try reflexivity.
    + constructor.
    + congruence.
  - assert (Hn : digest w <> []) by (rewrite D; discriminate).
    pose proof (run_mails w db Hu Hn) as M.
    pose proof (run_fetches_once w db Hu Hn) as F.
    rewrite D in M.
    repeat split; try discriminate; auto.
    rewrite M. apply Forall_forall. intros m Hm.
    apply in_map_iff in Hm. destruct Hm as [u [<- _]]. reflexivity.
Qed.

Lemma one_digest_for_all_witness :
  let run := send_daily_news sample_world sample_db in
  count is_fetch (trace run) = 1 /\
  Forall (fun m => snd m = digest sample_world) (mails (trace run)) /\
  (digest sample_world <> [] ->
     mails (trace run) =
     map (fun u => (email u, digest sample_world)) (active_users sample_db)) /\
  (digest sample_world = [] ->
     mails (trace run) = [] /\
     pending (staged run) = [] /\
     db_after run = sample_db).
Proof.
  apply (one_digest_for_all sample_world sample_db). discriminate.
Defined.

Example empty_digest_run :
  digest quiet_world = [] /\
  trace (send_daily_news quiet_world sample_db) =
    [PrintStarting; PrintFound 3; FetchNews; PrintNoArticles].
Proof. split; reflexivity. Qed.



Example sample_run_counts :
  In (PrintCompleted 2 1 5) (trace (send_daily_news sample_world sample_db)) /\
  email_logs (db_after (send_daily_news sample_world sample_db)) =
    [ mkEmailLog 3 5 "sent" None;
      mkEmailLog 1 5 "sent" None;
      mkEmailLog 3 5 "failed" (Some "boom");
      mkEmailLog 4 5 "sent" None ] /\
  db_after (send_daily_news locked_world sample_db) = sample_db.
Proof.
  split; [| split; reflexivity].
  vm_compute. repeat (first [left; reflexivity | right]).
Qed.

(* ------------------------------------------------------------------ *)
(** ** Rows and their primary key *)

Lemma distinct_NoDup (ids : list Z) : distinct ids = true -> NoDup ids.
Proof.
  induction ids as [|i ids IH]; simpl; intros H; constructor.
  - apply andb_true_iff in H. destruct H as [H _].
    intros I. apply negb_true_iff in H.
    assert (E : existsb (Z.eqb i) ids = true).
    { apply existsb_exists. exists i. split; [exact I | apply Z.eqb_refl]. }
    congruence.
  - apply IH. apply andb_true_iff in H. tauto.
Qed.

Lemma NoDup_ids_filter (p : User -> bool) (l : list User) :
  NoDup (map id l) -> NoDup (map id (filter p l)).
Proof.
  induction l as [|a l IH]; simpl; intros H; [constructor|].
  inversion H as [|? ? Hn Hl]; subst.
  destruct (p a); simpl; [constructor |]; auto.
  intros I. apply Hn. apply in_map_iff in I. destruct I as [b [E I]].
  apply filter_In in I. apply in_map_iff. exists b. tauto.
Qed.

Lemma same_id_same_row (l : list User) (a b : User) :
  NoDup (map id l) -> In a l -> In b l -> id a = id b -> a = b.
Proof.
  induction l as [|x l IH]; simpl; intros H Ia Ib E; [contradiction|].
  inversion H as [|? ? Hn Hl]; subst.
  destruct Ia as [-> | Ia], Ib as [-> | Ib]; auto.
  - exfalso. apply Hn. rewrite E. apply in_map. exact Ib.
  - exfalso. apply Hn. rewrite <- E. apply in_map. exact Ia.
Qed.

Lemma find_by_id (objs : list User) :
  NoDup (map id objs) ->
  forall k o, nth_error objs k = Some o ->
              find (fun x => (id x =? id o)%Z) objs = Some o.
Proof.
  induction objs as [|x objs IH]; intros H [|k] o E; simpl in *;
    try discriminate.
  - inversion E; subst. rewrite Z.eqb_refl. reflexivity.
  - inversion H as [|? ? Hn Hl]; subst.
    destruct (id x =? id o)%Z eqn:Q; [| apply (IH Hl k o E)].
    exfalso. apply Hn. apply Z.eqb_eq in Q. rewrite Q.
    apply in_map. eapply nth_error_In; eauto.
Qed.

Lemma current_id (objs : list User) (r : User) : id (current objs r) = id r.
Proof.
  unfold current.
  destruct (find (fun o => (id o =? id r)%Z) objs) as [o|] eqn:F; [|reflexivity].
  apply find_some in F. destruct F as [_ F]. apply Z.eqb_eq in F. exact F.
Qed.

Lemma active_in_users (db : DB) (k : nat) (u : User) :
  nth_error (active_users db) k = Some u -> In u (users db).
Proof.
  intros H. apply nth_error_In in H. unfold active_users in H.
  apply filter_In in H. tauto.
Qed.

(** The row of a subscriber of the snapshot after a commit that went
    through: the state the loop left the subscriber in. *)
Lemma committed_row (w : World) (db : DB) (k : nat) (u u' : User) :
  primary_key db = true ->
  nth_error (active_users db) k = Some u ->
  In u' (users (commit db (mkSession
                             (imap (object_of w (digest w)) 0 (active_users db))
                             (imap (row_of w (digest w)) 0 (active_users db))))) ->
  id u' = id u ->
  u' = object_of w (digest w) k u.
Proof.
  intros PK Hk Hin Hid.
  apply distinct_NoDup in PK.
  cbn [commit users objects] in Hin.
  apply in_map_iff in Hin. destruct Hin as [r [<- Hr]].
  rewrite current_id in Hid.
  assert (r = u) as ->
      by (eapply same_id_same_row; eauto using active_in_users).
  unfold current.
  rewrite <- (object_of_id w (digest w) k u).
  rewrite (find_by_id _) with (k := k) (o := object_of w (digest w) k u);
    [reflexivity | | ].
  - rewrite (imap_map _ id id) by (intros; apply object_of_id).
    apply NoDup_ids_filter. exact PK.
  - apply (imap_nth_error _ _ 0 k u Hk).
Qed.

Lemma row_survives (w : World) (db : DB) (k : nat) (u : User) :
  nth_error (active_users db) k = Some u ->
  exists u', In u' (users (db_after (send_daily_news w db))) /\ id u' = id u.
Proof.
  intros Hk.
  assert (Hu : active_users db <> []).
  { intros E. rewrite E in Hk. destruct k; discriminate. }
  pose proof (active_in_users db k u Hk) as I.
  destruct (digest w) as [|a news] eqn:D.
  - destruct (run_without_digest w db Hu D) as [_ [_ B]].
    rewrite B. eauto.
  - assert (Hn : digest w <> []) by (rewrite D; discriminate).
    destruct (run_shape w db Hu Hn) as [_ [_ B]]. rewrite B.
    destruct (commit_error w); [eauto |].
    exists (current (objects (staged (send_daily_news w db))) u).
    split; [apply in_map; exact I | apply current_id].
Qed.

(** C10: after the run the table still has a row for each subscriber of
    the snapshot; for a subscriber whose send returned false or raised it is
    the row it had before, so with the same [last_email_sent]; for a
    subscriber whose send succeeded [last_email_sent] is the clock reading
    of its turn, once the commit has gone through. *)
Theorem last_email_sent_moves_on_success_only :
  forall (w : World) (db : DB) (k : nat) (u : User),
    primary_key db = true ->
    nth_error (active_users db) k = Some u ->
    let after := users (db_after (send_daily_news w db)) in
    (exists u', In u' after /\ id u' = id u) /\
    forall u', In u' after -> id u' = id u ->
      (outcome w (digest w) k u <> Returns true ->
         last_email_sent u' = last_email_sent u /\ u' = u) /\
      (outcome w (digest w) k u = Returns true ->
         digest w <> [] ->
         commit_error w = None ->
         last_email_sent u' = Some (utcnow w k)).
Proof.
  intros w db k u PK Hk after. subst after.
  split; [apply (row_survives w db k u Hk) |].
  intros u' Hin Hid.
  assert (Hu : active_users db <> []).
  { intros E. rewrite E in Hk. destruct k; discriminate. }
  assert (Same : db_after (send_daily_news w db) = db -> u' = u).
  { intros E. rewrite E in Hin.
    eapply same_id_same_row; eauto using active_in_users, distinct_NoDup. }
  destruct (digest w) as [|a news] eqn:D.
  - destruct (run_without_digest w db Hu D) as [_ [_ B]].
    split; [| congruence]. intros _. rewrite (Same B). auto.
  - assert (Hn : digest w <> []) by (rewrite D; discriminate).
    destruct (run_shape w db Hu Hn) as [S [_ B]].
    destruct (commit_error w) as [text|] eqn:C.
    + split; [| discriminate]. intros _. rewrite (Same B). auto.
    + rewrite B, S in Hin.
      pose proof (committed_row w db k u u' PK Hk Hin Hid) as R.
      rewrite <- D. unfold object_of in R.
      destruct (outcome w (digest w) k u) as [[|]|text];
        (split; [intros F | intros T _ _]);
        try congruence; subst u'; auto.
Qed.

Example sample_run_users :
  users (db_after (send_daily_news sample_world sample_db)) =
    [ mkUser 1 "a@x.io" 10 true (Some 1000%Z);
      mkUser 2 "b@x.io" 20 false None;
      mkUser 3 "c@x.io" 30 true (Some 7%Z);
      mkUser 4 "d@x.io" 40 true (Some 1002%Z) ].
Proof. reflexivity. Qed.

Lemma last_email_sent_moves_on_success_only_witness :
  let after := users (db_after (send_daily_news sample_world sample_db)) in
  let u := mkUser 3 "c@x.io" 30 true (Some 7%Z) in
  (exists u', In u' after /\ id u' = id u) /\
  forall u', In u' after -> id u' = id u ->
    (outcome sample_world (digest sample_world) 1 u <> Returns true ->
       last_email_sent u' = last_email_sent u /\ u' = u) /\
    (outcome sample_world (digest sample_world) 1 u = Returns true ->
       digest sample_world <> [] ->
       commit_error sample_world = None ->
       last_email_sent u' = Some (utcnow sample_world 1)).
Proof.
  apply (last_email_sent_moves_on_success_only
           sample_world sample_db 1 (mkUser 3 "c@x.io" 30 true (Some 7%Z)));
    reflexivity.
Defined.

(* ------------------------------------------------------------------ *)
(** ** The recurring job *)

Section Registration.

Variable new : Job.

Lemma registered_none (js : list Job) :
  has_job (job_id new) js = false -> registered (job_id new) js = [].
Proof.
  unfold has_job, registered.
  induction js as [|j js IH]; simpl; [reflexivity|].
  destruct (String.eqb (job_id j) (job_id new)); simpl; [discriminate | exact IH].
Qed.

Lemma registered_some (js : list Job) :
  has_job (job_id new) js = true -> 1 <= List.length (registered (job_id new) js).
Proof.
  unfold has_job, registered.
  induction js as [|j js IH]; simpl; [discriminate|].
  destruct (String.eqb (job_id j) (job_id new)); simpl; [lia | exact IH].
Qed.

Lemma registered_replace (js : list Job) :
  registered (job_id new) (replace_job new js) =
  map (fun _ => new) (registered (job_id new) js).
Proof.
  unfold registered, replace_job.
  induction js as [|j js IH]; simpl; [reflexivity|].
  destruct (String.eqb (job_id j) (job_id new)) eqn:E; simpl.
  - rewrite String.eqb_refl. simpl. rewrite IH. reflexivity.
  - rewrite E. exact IH.
Qed.

Lemma replace_twice (js : list Job) :
  replace_job new (replace_job new js) = replace_job new js.
Proof.
  unfold replace_job. rewrite map_map. apply map_ext. intros j.
  destruct (String.eqb (job_id j) (job_id new)) eqn:E;
    [rewrite String.eqb_refl | rewrite E]; reflexivity.
Qed.

Lemma replace_absent (js : list Job) :
  has_job (job_id new) js = false -> replace_job new js = js.
Proof.
  unfold has_job, replace_job.
  induction js as [|j js IH]; simpl; [reflexivity|].
  destruct (String.eqb (job_id j) (job_id new)); simpl; [discriminate|].
  intros H. rewrite (IH H). reflexivity.
Qed.

Lemma has_job_replace (js : list Job) :
  has_job (job_id new) (replace_job new js) = has_job (job_id new) js.
Proof.
  unfold has_job, replace_job.
  induction js as [|j js IH]; simpl; [reflexivity|].
  destruct (String.eqb (job_id j) (job_id new)) eqn:E; simpl.
  - rewrite String.eqb_refl. reflexivity.
  - rewrite E. exact IH.
Qed.

Lemma has_job_added (js : list Job) : has_job (job_id new) (js ++ [new]) = true.
Proof.
  unfold has_job. rewrite existsb_app. simpl.
  rewrite String.eqb_refl. apply orb_true_iff. right. reflexivity.
Qed.

(** Storing a job with [replace_existing] set always goes through, leaves
    the store where storing it again leaves it, and leaves under the id of
    the job only copies of the job: one when none or one was stored
    before. *)
Lemma real_add_job_replacing (store : list Job) :
  exists store',
    real_add_job store new true = Ok store' /\
    real_add_job store' new true = Ok store' /\
    List.length (registered (job_id new) store') =
      Nat.max 1 (List.length (registered (job_id new) store)) /\
    (forall j, In j (registered (job_id new) store') -> j = new).
Proof.
  unfold real_add_job.
  destruct (has_job (job_id new) store) eqn:H; eexists; (split; [reflexivity|]).
  - rewrite has_job_replace, H, replace_twice. split; [reflexivity|].
    rewrite registered_replace. split.
    + rewrite length_map. pose proof (registered_some _ H). lia.
    + intros j I. apply in_map_iff in I. destruct I as [? [E _]]. auto.
  - rewrite has_job_added.
    assert (R : replace_job new (store ++ [new]) = store ++ [new]).
    { unfold replace_job. rewrite map_app. fold (replace_job new store).
      rewrite (replace_absent _ H). simpl. rewrite String.eqb_refl. reflexivity. }
    rewrite R. split; [reflexivity|].
    unfold registered. rewrite filter_app. fold (registered (job_id new) store).
    rewrite (registered_none _ H). simpl. rewrite String.eqb_refl.
    split; [reflexivity|]. simpl. intros j [<- | []]. reflexivity.
Qed.

(** Storing a job whose id is taken, without [replace_existing], raises. *)
Lemma real_add_job_refusing (store : list Job) :
  has_job (job_id new) store = true ->
  real_add_job store new false = Raise (ConflictingIdError (job_id new)).
Proof. intros H. unfold real_add_job. rewrite H. reflexivity. Qed.

End Registration.

(** C8: the scheduler that [start_scheduler] builds holds, before it is
    started, one pending job: the one with id ['daily_news_job'], a cron
    trigger at hour 22, minute 22 in ['Asia/Kolkata'], [max_instances] 1 and
    [coalesce] set, queued with [replace_existing] set; [start_scheduler]
    returns that scheduler running, with this one job in its store.
    Starting the scheduler so configured over a store that already holds
    jobs replaces what holds the id instead of adding to it or failing: it
    goes through and leaves under the id only the job, one copy when at
    most one was there; registering the job again on the running scheduler,
    with the flag of the code, changes nothing.  Without the flag the same
    start fails as soon as the id is taken. *)
Theorem one_daily_job :
  (exists s0,
      scheduled = Ok s0 /\
      daemon s0 = true /\
      pending_jobs s0 = [(daily_news_job, true)] /\
      jobs s0 = [] /\
      running s0 = false /\
      get_jobs s0 = [daily_news_job] /\
      forall store : list Job,
        exists s,
          start (mkScheduler (daemon s0) (pending_jobs s0) store false) = Ok s /\
          running s = true /\
          pending_jobs s = [] /\
          List.length (registered "daily_news_job" (jobs s)) =
            Nat.max 1 (List.length (registered "daily_news_job" store)) /\
          (forall j, In j (registered "daily_news_job" (jobs s)) ->
                     j = daily_news_job) /\
          (forall j flag, In (j, flag) (pending_jobs s0) ->
                          add_job s j flag = Ok s)) /\
  (exists s,
      start_scheduler = Some s /\
      running s = true /\
      pending_jobs s = [] /\
      jobs s = [daily_news_job] /\
      get_jobs s = [daily_news_job]) /\
  job_id daily_news_job = "daily_news_job" /\
  hour (trigger daily_news_job) = 22%Z /\
  minute (trigger daily_news_job) = 22%Z /\
  timezone (trigger daily_news_job) = "Asia/Kolkata" /\
  max_instances daily_news_job = 1 /\
  coalesce daily_news_job = true /\
  (forall store : list Job,
      has_job "daily_news_job" store = true ->
      start (mkScheduler true [(daily_news_job, false)] store false) =
      Raise (ConflictingIdError "daily_news_job")).
Proof.
  split; [| split; [| repeat split]].
  - eexists. split; [reflexivity |]. cbn [daemon pending_jobs jobs running].
    repeat (split; [reflexivity |]).
    intros store.
    destruct (real_add_job_replacing daily_news_job store)
      as [store' [A [B [L O]]]].
    exists (mkScheduler true [] store' true).
    unfold start. cbn [running jobs pending_jobs daemon add_pending app].
    rewrite A. cbn [bind]. repeat (split; [auto |]).
    intros j flag [E | []]. inversion E; subst j flag.
    unfold add_job. cbn [running jobs pending_jobs daemon].
    rewrite B. reflexivity.
  - eexists. repeat split; reflexivity.
  - intros store H. unfold start.
    cbn [running jobs pending_jobs daemon add_pending app].
    rewrite (real_add_job_refusing daily_news_job store H). reflexivity.
Qed.

Example stale_registration_is_replaced :
  start (mkScheduler true [(daily_news_job, true)] [stale_job] false) =
    Ok (mkScheduler true [] [daily_news_job] true) /\
  start (mkScheduler true [(daily_news_job, false)] [stale_job] false) =
    Raise (ConflictingIdError "daily_news_job") /\
  (s <- add_job (mkScheduler true [] [] false) stale_job false ;;
   s <- add_job s daily_news_job true ;;
   start s) = Ok (mkScheduler true [] [daily_news_job] true).
Proof. repeat split; reflexivity. Qed.

(* ------------------------------------------------------------------ *)
(** ** Subscribing again *)

Section Resubscribe.
Import Routes.

Example validate_email_samples :
  map validate_email
      ["a@b.co"; "a.b+c@x-y.z.org"; "a@b..co"; "a@b.c"; "a@.co"; "@b.co";
       "a@@b.co"; "a@b.c0m"; "a b@c.de"; "a@bco"; ""] =
      [true; true; true; false; false; false;
       false; false; false; false; false] /\
  lower (strip "  Ab@C.De  ") = "ab@c.de".
Proof. split; reflexivity. Qed.

Lemma validate_email_nonempty (e : string) :
  validate_email e = true -> (String.length e =? 0)%nat = false.
Proof. destruct e; [discriminate | reflexivity]. Qed.

Lemma first_by_email_found (db : DB) (e : string) (u : User) :
  first_by_email db e = Some u -> In u (users db) /\ email u = e.
Proof.
  unfold first_by_email. intros H. apply find_some in H.
  destruct H as [I E]. apply String.eqb_eq in E. tauto.
Qed.

Lemma current_one (u' r : User) :
  current [u'] r = if (id u' =? id r)%Z then u' else r.
Proof.
  unfold current. simpl. destruct (id u' =? id r)%Z; reflexivity.
Qed.

(** Writing back one mutated object changes the row with its primary key
    and no other. *)
Lemma update_user_rows (db : DB) (u u' : User) :
  primary_key db = true ->
  In u (users db) ->
  id u' = id u ->
  email u' = email u ->
  let db' := update_user db u' in
  email_logs db' = email_logs db /\
  map id (users db') = map id (users db) /\
  map email (users db') = map email (users db) /\
  In u' (users db') /\
  (forall r, In r (users db') -> id r = id u -> r = u') /\
  (forall r, In r (users db) -> id r <> id u -> In r (users db')).
Proof.
  intros PK I Hid Hem db'. subst db'.
  apply distinct_NoDup in PK.
  unfold update_user, commit. cbn [users email_logs objects pending].
  rewrite app_nil_r.
  assert (Row : forall r, In r (users db) ->
                          current [u'] r = if (id u =? id r)%Z then u' else r).
  { intros r _. rewrite current_one, Hid. reflexivity. }
  split; [reflexivity|]. split; [| split; [| split; [| split]]].
  - rewrite map_map. apply map_ext. intros r. apply current_id.
  - rewrite map_map. apply map_ext_in. intros r Hr. rewrite (Row r Hr).
    destruct (id u =? id r)%Z eqn:Q; [| reflexivity].
    apply Z.eqb_eq in Q.
    rewrite (same_id_same_row (users db) u r PK I Hr Q) in Hem. exact Hem.
  - apply in_map_iff. exists u. split; [| exact I].
    rewrite (Row u I), Z.eqb_refl. reflexivity.
  - intros r Hr Q. apply in_map_iff in Hr. destruct Hr as [r0 [<- Hr0]].
    rewrite (Row r0 Hr0) in *.
    destruct (id u =? id r0)%Z eqn:Q0; [reflexivity|].
    apply Z.eqb_neq in Q0. congruence.
  - intros r Hr Q. apply in_map_iff. exists r. split; [| exact Hr].
    rewrite (Row r Hr).
    destruct (id u =? id r)%Z eqn:Q0; [| reflexivity].
    apply Z.eqb_eq in Q0. congruence.
Qed.

(** C9: when the stored record found under the normalised address is
    inactive, a subscription request for that address that is accepted
    (valid address, commit goes through), through the form or through the
    API, makes the record active and sets its subscription time to the
    clock reading, keeping its id, address and [last_email_sent]; it leaves
    the table of log rows as it was, adds no record, and leaves the other
    records as they were. *)
Theorem resubscribe_reactivates :
  forall (db : DB) (raw : string) (now : datetime) (u : User),
    primary_key db = true ->
    validate_email (lower (strip raw)) = true ->
    first_by_email db (lower (strip raw)) = Some u ->
    is_active u = false ->
    let form := subscribe "POST" (Some raw) now None db in
    let api := api_subscribe (PDict [("email", PStr raw)]) now None db in
    let db' := fst form in
    let u' := mkUser (id u) (email u) now true (last_email_sent u) in
    snd form = Redirect "main.home" Reactivated /\
    code (snd api) = 200%Z /\
    fst api = db' /\
    email_logs db' = email_logs db /\
    List.length (users db') = List.length (users db) /\
    map id (users db') = map id (users db) /\
    map email (users db') = map email (users db) /\
    In u' (users db') /\
    (forall r, In r (users db') -> id r = id u -> r = u') /\
    (forall r, In r (users db) -> id r <> id u -> In r (users db')).
Proof.
  intros db raw now u PK V F A form api db' u'. subst form api db' u'.
  pose proof (validate_email_nonempty _ V) as N.
  destruct (first_by_email_found db _ u F) as [I _].
  unfold api_subscribe, api_subscribe_try, subscribe, strip_lower.
  cbn [String.eqb Ascii.eqb Bool.eqb get lookup bind].
  rewrite N, V, F, A. cbn [negb orb fst snd code].
  destruct (update_user_rows db u (reactivate u now) PK I eq_refl eq_refl)
    as [L [Hi [He [Hin [Hsame Hother]]]]].
  repeat split; auto.
  rewrite <- (length_map id (users (update_user db (reactivate u now)))), Hi.
  apply length_map.
Qed.

Lemma resubscribe_reactivates_witness :
  let db' := fst (subscribe "POST" (Some "  B@X.io ") 99 None lapsed_db) in
  let u' := mkUser 2 "b@x.io" 99 true (Some 15%Z) in
  snd (subscribe "POST" (Some "  B@X.io ") 99 None lapsed_db)
    = Redirect "main.home" Reactivated /\
  code (snd (api_subscribe (PDict [("email", PStr "  B@X.io ")]) 99 None
                           lapsed_db)) = 200%Z /\
  fst (api_subscribe (PDict [("email", PStr "  B@X.io ")]) 99 None lapsed_db)
    = db' /\
  email_logs db' = email_logs lapsed_db /\
  List.length (users db') = List.length (users lapsed_db) /\
  map id (users db') = map id (users lapsed_db) /\
  map email (users db') = map email (users lapsed_db) /\
  In u' (users db') /\
  (forall r, In r (users db') -> id r = 2%Z -> r = u') /\
  (forall r, In r (users lapsed_db) -> id r <> 2%Z -> In r (users db')).
Proof.
  apply (resubscribe_reactivates lapsed_db "  B@X.io " 99
                                 (mkUser 2 "b@x.io" 20 false (Some 15%Z)));
    reflexivity.
Defined.

End Resubscribe.

(* ================================================================== *)
(** * Further properties *)

(* ------------------------------------------------------------------ *)
(** ** The article source, item by item *)

Lemma keep_article_dict (news_data : list Article) (a : PyVal) :
  is_dict a = true ->
  keep_article news_data a =
  if acceptable a then
    d' <- _truncate_description (field "description" a) ;;
    Ok (news_data ++ [mkArticle (field "title" a) (field "url" a) d'])
  else Ok news_data.
Proof.
  destruct a as [ | b | z | f | s | l | m]; try discriminate. intros _.
  unfold keep_article, acceptable, field. cbn [get bind].
  destruct (truthy _); cbn [negb andb]; [| reflexivity].
  destruct (truthy _); cbn [negb andb]; [| reflexivity].
  destruct (truthy _); cbn [negb andb]; [| reflexivity].
  destruct (ne_str _ _); reflexivity.
Qed.

Lemma keep_article_not_dict (news_data : list Article) (a : PyVal) :
  is_dict a = false -> exists e, keep_article news_data a = Raise e.
Proof.
  destruct a; try discriminate; intros _; unfold keep_article; cbn [get bind];
    eauto.
Qed.

Lemma for_articles_made_from (items : list PyVal) :
  forall news_data out,
    for_articles news_data items = Ok out ->
    exists added,
      out = news_data ++ added /\
      Forall2 made_from added (filter acceptable items).
Proof.
  induction items as [|a items IH]; intros news_data out H.
  - apply Ok_inj in H. subst out. exists []. rewrite app_nil_r.
    split; [reflexivity | constructor].
  - cbn [for_articles] in H.
    destruct (is_dict a) eqn:D.
    + rewrite (keep_article_dict news_data a D) in H. cbn [filter].
      destruct (acceptable a) eqn:A.
      * destruct (_truncate_description (field "description" a)) as [d'|e] eqn:T;
          cbn [bind] in H; [| discriminate].
        destruct (IH _ _ H) as [added [E F]].
        exists (mkArticle (field "title" a) (field "url" a) d' :: added).
        split; [rewrite E, <- app_assoc; reflexivity |].
        constructor; [| exact F]. repeat split; assumption.
      * cbn [bind] in H. apply (IH _ _ H).
    + destruct (keep_article_not_dict news_data a D) as [e E].
      rewrite E in H. discriminate.
Qed.

Lemma Forall2_firstn {A B : Type} (R : A -> B -> Prop) (n : nat) :
  forall (l : list A) (m : list B),
    Forall2 R l m -> Forall2 R (firstn n l) (firstn n m).
Proof.
  induction n as [|n IH]; intros l m H; [constructor|].
  destruct H; cbn [firstn]; constructor; auto.
Qed.

(** What the [try] computes once the provider has answered with a dict
    whose ['articles'] is a list. *)
Lemma fetch_try_list (api_key : option string) (r : Response)
      (d : list (string * PyVal)) (items : list PyVal) :
  no_api_key api_key = false ->
  passes r ->
  json_body r = Some (PDict d) ->
  get (PDict d) "articles" (PList []) = Ok (PList items) ->
  fetch_try api_key (GetReturns r) =
  news_data <- for_articles [] items ;; Ok (firstn 5 news_data).
Proof.
  intros K P J G. unfold fetch_try. rewrite K.
  unfold raise_for_status.
  replace ((400 <=? status_code r)%Z && (status_code r <? 600)%Z) with false.
  - cbn [bind]. unfold json. rewrite J. cbn [bind]. rewrite G. reflexivity.
  - symmetry. apply not_true_is_false. intros T. apply P.
    apply andb_true_iff in T. destruct T as [T1 T2].
    apply Z.leb_le in T1. apply Z.ltb_lt in T2. lia.
Qed.

(** X1: when [fetch_ai_news] does not fall back, its entries are the first
    five items of the provider's list that pass the filter, in the
    provider's order: each entry has the title and URL of its item and the
    item's description truncated. *)
Theorem fetch_ai_news_keeps_order :
  forall (api_key : option string) (r : Response)
         (d : list (string * PyVal)) (items : list PyVal) (news : list Article),
    no_api_key api_key = false ->
    json_body r = Some (PDict d) ->
    get (PDict d) "articles" (PList []) = Ok (PList items) ->
    fetch_try api_key (GetReturns r) = Ok news ->
    fetch_ai_news api_key (GetReturns r) = news /\
    Forall2 made_from news (firstn 5 (filter acceptable items)).
Proof.
  intros api_key r d items news K J G T.
  split; [unfold fetch_ai_news; rewrite T; reflexivity |].
  assert (P : passes r).
  { intros S. unfold fetch_try in T. rewrite K in T.
    unfold raise_for_status in T.
    replace ((400 <=? status_code r)%Z && (status_code r <? 600)%Z)
      with true in T; [discriminate |].
    symmetry. apply andb_true_iff. split;
      [apply Z.leb_le | apply Z.ltb_lt]; lia. }
  rewrite (fetch_try_list api_key r d items K P J G) in T.
  destruct (for_articles [] items) as [nd|e] eqn:F; cbn [bind] in T;
    [| discriminate].
  apply Ok_inj in T. subst news.
  destruct (for_articles_made_from items [] nd F) as [added [E M]].
  cbn [app] in E. subst nd. apply Forall2_firstn. exact M.
Qed.

Lemma fetch_ai_news_keeps_order_witness :
  let r := mkResponse 200 (Some sample_body) in
  fetch_ai_news (Some "key") (GetReturns r) =
    [ mkArticle (PStr "t2") (PStr "u2")
                (PStr (substring 0 247 long_text ++ "..."));
      mkArticle (PStr "t3") (PStr "u3") (PStr "d3") ] /\
  Forall2 made_from
          [ mkArticle (PStr "t2") (PStr "u2")
                      (PStr (substring 0 247 long_text ++ "..."));
            mkArticle (PStr "t3") (PStr "u3") (PStr "d3") ]
          (firstn 5 (filter acceptable
                            match field "articles" sample_body with
                            | PList l => l
                            | _ => []
                            end)).
Proof.
  apply (fetch_ai_news_keeps_order
           (Some "key") (mkResponse 200 (Some sample_body))
           match sample_body with PDict d => d | _ => [] end);
    reflexivity.
Defined.

Lemma for_articles_all_dicts (items : list PyVal) :
  forall news_data out,
    for_articles news_data items = Ok out -> forallb is_dict items = true.
Proof.
  induction items as [|a items IH]; intros news_data out H; [reflexivity|].
  cbn [for_articles forallb] in *.
  destruct (is_dict a) eqn:D.
  - destruct (keep_article news_data a) as [nd|e]; cbn [bind] in H;
      [| discriminate].
    apply (IH _ _ H).
  - destruct (keep_article_not_dict news_data a D) as [e E].
    rewrite E in H. discriminate.
Qed.

Lemma for_articles_none_kept (items : list PyVal) :
  forallb (fun a => is_dict a && negb (acceptable a)) items = true ->
  forall news_data, for_articles news_data items = Ok news_data.
Proof.
  induction items as [|a items IH]; intros H news_data; [reflexivity|].
  cbn [forallb] in H. apply andb_true_iff in H. destruct H as [H1 H2].
  apply andb_true_iff in H1. destruct H1 as [D A].
  apply negb_true_iff in A.
  cbn [for_articles]. rewrite (keep_article_dict news_data a D), A.
  cbn [bind]. apply (IH H2).
Qed.

Lemma filter_nil_forallb {A : Type} (p q : A -> bool) (l : list A) :
  forallb q l = true -> filter p l = [] ->
  forallb (fun a => q a && negb (p a)) l = true.
Proof.
  induction l as [|a l IH]; cbn [forallb filter]; intros Q F; [reflexivity|].
  apply andb_true_iff in Q. destruct Q as [Q1 Q2].
  destruct (p a); [discriminate|].
  rewrite Q1. cbn [negb andb]. apply (IH Q2 F).
Qed.

(** X2: [fetch_ai_news] can return the empty list.  Once a key is set and
    the provider has answered with a dict whose ['articles'] is a list (or
    is missing, which reads as the empty list), the result is empty exactly
    when the status is no error status and every item is a dict that fails
    the filter; the fallback is not used then. *)
Theorem fetch_ai_news_empty_iff :
  forall (api_key : option string) (r : Response)
         (d : list (string * PyVal)) (items : list PyVal),
    no_api_key api_key = false ->
    json_body r = Some (PDict d) ->
    get (PDict d) "articles" (PList []) = Ok (PList items) ->
    (fetch_ai_news api_key (GetReturns r) = [] <->
     passes r /\
     forallb (fun a => is_dict a && negb (acceptable a)) items = true).
Proof.
  intros api_key r d items K J G. split.
  - intros E.
    destruct (fetch_try api_key (GetReturns r)) as [news|e] eqn:T.
    + assert (P : passes r).
      { intros S. unfold fetch_try in T. rewrite K in T.
        unfold raise_for_status in T.
        replace ((400 <=? status_code r)%Z && (status_code r <? 600)%Z)
          with true in T; [discriminate |].
        symmetry. apply andb_true_iff. split;
          [apply Z.leb_le | apply Z.ltb_lt]; lia. }
      split; [exact P |].
      unfold fetch_ai_news in E. rewrite T in E. subst news.
      rewrite (fetch_try_list api_key r d items K P J G) in T.
      destruct (for_articles [] items) as [nd|e] eqn:F; cbn [bind] in T;
        [| discriminate].
      apply Ok_inj in T.
      destruct (for_articles_made_from items [] nd F) as [added [EQ M]].
      cbn [app] in EQ. subst nd.
      assert (added = []) by (destruct added; [reflexivity | discriminate]).
      subst added. inversion M as [N |]; subst.
      apply filter_nil_forallb; [| congruence].
      apply (for_articles_all_dicts items [] [] F).
    + rewrite (raise_fallback api_key _ e T) in E. discriminate.
  - intros [P A]. unfold fetch_ai_news.
    rewrite (fetch_try_list api_key r d items K P J G).
    rewrite (for_articles_none_kept items A []). reflexivity.
Qed.

Lemma fetch_ai_news_empty_iff_witness :
  fetch_ai_news (Some "key")
    (GetReturns (mkResponse 200 (Some (PDict [("status", PStr "ok")])))) = []
  <->
  passes (mkResponse 200 (Some (PDict [("status", PStr "ok")]))) /\
  forallb (fun a => is_dict a && negb (acceptable a)) [] = true.
Proof.
  apply (fetch_ai_news_empty_iff
           (Some "key")
           (mkResponse 200 (Some (PDict [("status", PStr "ok")])))
           [("status", PStr "ok")] []);
    reflexivity.
Defined.

(** X3: truncating twice is truncating once: whatever
    [_truncate_description] returns, it returns unchanged when applied
    again. *)
Theorem truncate_description_idempotent :
  forall d d' : PyVal,
    _truncate_description d = Ok d' ->
    _truncate_description d' = Ok d'.
Proof.
  intros d d' H. unfold _truncate_description in *.
  destruct d as [ | b | z | f | s | l | m]; cbn [len bind] in H;
    try discriminate.
  - destruct (250 <? String.length s)%nat eqn:E.
    + cbn [slice_ellipsis] in H. apply Ok_inj in H. subst d'.
      apply Nat.ltb_lt in E. cbn [len bind].
      rewrite (truncated_length s E). reflexivity.
    + apply Ok_inj in H. subst d'. cbn [len bind]. rewrite E. reflexivity.
  - destruct (250 <? List.length l)%nat eqn:E; [discriminate|].
    apply Ok_inj in H. subst d'. cbn [len bind]. rewrite E. reflexivity.
  - destruct (250 <? List.length m)%nat eqn:E; [discriminate|].
    apply Ok_inj in H. subst d'. cbn [len bind]. rewrite E. reflexivity.
Qed.

Lemma truncate_description_idempotent_witness :
  _truncate_description (PStr (substring 0 247 long_text ++ "...")) =
  Ok (PStr (substring 0 247 long_text ++ "...")).
Proof.
  apply (truncate_description_idempotent (PStr long_text)). reflexivity.
Defined.

(* ------------------------------------------------------------------ *)
(** ** test_api_connection *)

(** X4: [test_api_connection] reports success exactly when a key is set,
    the request returned and its status is no error status; the body is not
    read.  When it reports failure, [fetch_ai_news] falls back on the same
    key and the same answer. *)
Theorem connection_test_predicts_fallback :
  forall (api_key : option string) (got : GetResult),
    (fst (test_api_connection api_key got) = true <->
     no_api_key api_key = false /\
     exists r, got = GetReturns r /\ passes r) /\
    (fst (test_api_connection api_key got) = false ->
     fetch_ai_news api_key got = get_fallback_news).
Proof.
  intros api_key got.
  unfold test_api_connection, connection_try.
  destruct (no_api_key api_key) eqn:K.
  - split.
    + split; [discriminate | intros [? _]; discriminate].
    + intros _. apply no_key_fallback. exact K.
  - destruct got as [msg | r].
    + split.
      * split; [discriminate | intros [_ [r [? _]]]; discriminate].
      * intros _.
        destruct (with_key_raises api_key (GetRaises msg) K) as [e E];
          [eauto | eapply raise_fallback; eauto].
    + unfold raise_for_status.
      destruct ((400 <=? status_code r)%Z && (status_code r <? 600)%Z) eqn:S;
        cbn [bind fst].
      * apply andb_true_iff in S. destruct S as [S1 S2].
        apply Z.leb_le in S1. apply Z.ltb_lt in S2.
        split.
        -- split; [discriminate |].
           intros [_ [r' [E P]]]. inversion E; subst r'.
           exfalso. apply P. lia.
        -- intros _.
           destruct (with_key_raises api_key (GetReturns r) K) as [e E].
           ++ right; left. exists r. split; [reflexivity | lia].
           ++ eapply raise_fallback; eauto.
      * split; [| discriminate].
        split; [| reflexivity]. intros _. split; [reflexivity |].
        exists r. split; [reflexivity |].
        intros P. apply andb_false_iff in S.
        destruct S as [S | S];
          [apply Z.leb_gt in S | apply Z.ltb_ge in S]; lia.
Qed.

Example connection_test_ignores_body :
  fst (test_api_connection (Some "key") (GetReturns (mkResponse 200 None)))
    = true /\
  fetch_ai_news (Some "key") (GetReturns (mkResponse 200 None))
    = get_fallback_news.
Proof. split; reflexivity. Qed.

(* ------------------------------------------------------------------ *)
(** ** What a run stages and prints *)

Lemma digest_at_most_five (w : World) : List.length (digest w) <= 5.
Proof.
  unfold digest, fetch_ai_news.
  destruct (fetch_try (api_key w) (news_api w)) as [news|e] eqn:T.
  - apply (fetch_try_presentable _ _ _ T).
  - destruct e; simpl; lia.
Qed.

Lemma imap_In {A B : Type} (f : nat -> A -> B) (l : list A) :
  forall k b, In b (imap f k l) -> exists i a, In a l /\ b = f i a.
Proof.
  induction l as [|x l IH]; intros k b H; [contradiction|].
  destruct H as [<- | H].
  - exists k, x. split; [left; reflexivity | reflexivity].
  - destruct (IH (S k) b H) as [i [a [I E]]].
    exists i, a. split; [right; exact I | exact E].
Qed.

(** The run either staged nothing or went through the loop. *)
Lemma run_cases (w : World) (db : DB) :
  (pending (staged (send_daily_news w db)) = [] /\
   db_after (send_daily_news w db) = db /\
   count is_completed (trace (send_daily_news w db)) = 0) \/
  (active_users db <> [] /\ digest w <> []).
Proof.
  destruct (active_users db) as [|u us] eqn:U.
  - left. unfold send_daily_news. rewrite U. repeat split; reflexivity.
  - destruct (digest w) as [|a news] eqn:D.
    + left.
      assert (Hu : active_users db <> []) by (rewrite U; discriminate).
      destruct (run_without_digest w db Hu D) as [T [S B]].
      rewrite T, S, B. repeat split; reflexivity.
    + right. split; discriminate.
Qed.

Lemma nonempty_length {A : Type} (l : list A) : l <> [] -> 1 <= List.length l.
Proof. destruct l; [congruence | simpl; lia]. Qed.

(** X5: every log row a run stages belongs to a subscriber of the snapshot,
    records the number of articles of the digest, between 1 and 5, and is
    either ['sent'] without error detail or ['failed'] with one; no row is
    staged as ['pending']. *)
Theorem staged_rows_are_complete :
  forall (w : World) (db : DB) (row : EmailLog),
    In row (pending (staged (send_daily_news w db))) ->
    (exists u, In u (active_users db) /\ user_id row = id u) /\
    articles_count row = List.length (digest w) /\
    1 <= articles_count row <= 5 /\
    ((status row = "sent" /\ error_message row = None) \/
     (status row = "failed" /\ exists text, error_message row = Some text)).
Proof.
  intros w db row H.
  destruct (run_cases w db) as [[E _] | [Hu Hn]];
    [rewrite E in H; contradiction |].
  rewrite (run_rows w db Hu Hn) in H.
  destruct (imap_In _ _ _ _ H) as [k [u [I ->]]].
  pose proof (digest_at_most_five w) as L5.
  pose proof (nonempty_length _ Hn) as L1.
  split; [exists u; split; [exact I | apply row_of_user_id] |].
  unfold row_of.
  destruct (outcome w (digest w) k u) as [[|]|text]; cbn;
    repeat split; eauto; lia.
Qed.

Lemma staged_rows_are_complete_witness :
  let row := mkEmailLog 3 5 "failed" (Some "boom") in
  (exists u, In u (active_users sample_db) /\ user_id row = id u) /\
  articles_count row = List.length (digest sample_world) /\
  1 <= articles_count row <= 5 /\
  ((status row = "sent" /\ error_message row = None) \/
   (status row = "failed" /\ exists text, error_message row = Some text)).
Proof.
  apply (staged_rows_are_complete sample_world sample_db
                                  (mkEmailLog 3 5 "failed" (Some "boom"))).
  simpl. tauto.
Defined.

Lemma rows_sent_or_failed (w : World) (news : list Article) (us : list User) :
  forall k,
    List.length (with_status "sent" (imap (row_of w news) k us)) +
    List.length (with_status "failed" (imap (row_of w news) k us)) =
    List.length us.
Proof.
  induction us as [|u us IH]; intros k; [reflexivity|].
  cbn [imap].
  change (row_of w news k u :: imap (row_of w news) (S k) us)
    with ([row_of w news k u] ++ imap (row_of w news) (S k) us).
  rewrite !with_status_app, !length_app.
  specialize (IH (S k)). cbn [List.length].
  assert (List.length (with_status "sent" [row_of w news k u]) +
          List.length (with_status "failed" [row_of w news k u]) = 1).
  { unfold row_of. destruct (outcome w news k u) as [[|]|text]; reflexivity. }
  lia.
Qed.

Lemma count_zero_In (p : Event -> bool) (t : list Event) (e : Event) :
  count p t = 0 -> In e t -> p e = false.
Proof.
  unfold count. induction t as [|x t IH]; intros C I; [contradiction|].
  cbn [filter] in C. destruct (p x) eqn:P; [discriminate|].
  destruct I as [<- | I]; auto.
Qed.

(** X6: whenever the job prints its closing counts, successes and failures
    add up to the number of subscribers of the snapshot, and the article
    count is the length of the digest, between 1 and 5. *)
Theorem closing_counts_add_up :
  forall (w : World) (db : DB) (s f n : nat),
    In (PrintCompleted s f n) (trace (send_daily_news w db)) ->
    s + f = List.length (active_users db) /\
    n = List.length (digest w) /\
    1 <= n <= 5.
Proof.
  intros w db s f n H.
  destruct (run_cases w db) as [[_ [_ C]] | [Hu Hn]].
  - pose proof (count_zero_In _ _ _ C H) as F. discriminate.
  - destruct (run_shape w db Hu Hn) as [S [T _]].
    rewrite T in H. rewrite S in H. cbn [pending] in H.
    apply in_app_or in H. destruct H as [H | H].
    + apply in_app_or in H. destruct H as [H | H].
      * simpl in H. intuition discriminate.
      * assert (C : count is_completed
                          (List.concat (imap (events_of w (digest w)) 0
                                             (active_users db))) = 0)
          by (apply count_loop; reflexivity).
        pose proof (count_zero_In _ _ _ C H) as F. discriminate.
    + destruct H as [H | H]; [discriminate |].
      pose proof (rows_sent_or_failed w (digest w) (active_users db) 0) as R.
      pose proof (digest_at_most_five w) as L5.
      pose proof (nonempty_length _ Hn) as L1.
      unfold closing in H.
      destruct (commit_error w); simpl in H;
        intuition (try discriminate);
        match goal with
        | E : PrintCompleted _ _ _ = PrintCompleted _ _ _ |- _ =>
            inversion E; subst; clear E
        end; lia.
Qed.

Lemma closing_counts_add_up_witness :
  2 + 1 = List.length (active_users sample_db) /\
  5 = List.length (digest sample_world) /\
  1 <= 5 <= 5.
Proof.
  apply (closing_counts_add_up sample_world sample_db 2 1 5).
  vm_compute. repeat (first [left; reflexivity | right]).
Defined.

(* ------------------------------------------------------------------ *)
(** ** What a run leaves of the tables *)

Lemma object_of_cases (w : World) (news : list Article) (k : nat) (u : User) :
  object_of w news k u = u \/
  object_of w news k u = set_last_email_sent u (utcnow w k).
Proof.
  unfold object_of. destruct (outcome w news k u) as [[|]|text]; auto.
Qed.

(** The session's view of a row after the loop: the subscriber as the loop
    left it when the row is active, the row itself when it is not. *)
Lemma current_after_loop (w : World) (db : DB) (r : User) :
  NoDup (map id (users db)) ->
  In r (users db) ->
  let objs := imap (object_of w (digest w)) 0 (active_users db) in
  (is_active r = true -> exists k, current objs r = object_of w (digest w) k r) /\
  (is_active r = false -> current objs r = r).
Proof.
  intros ND I objs. subst objs. split.
  - intros A.
    assert (Ia : In r (active_users db)) by (apply filter_In; tauto).
    destruct (In_nth_error _ _ Ia) as [k Hk]. exists k.
    unfold current.
    rewrite <- (object_of_id w (digest w) k r).
    rewrite (find_by_id _) with (k := k) (o := object_of w (digest w) k r);
      [reflexivity | | ].
    + rewrite (imap_map _ id id) by (intros; apply object_of_id).
      apply NoDup_ids_filter. exact ND.
    + apply (imap_nth_error _ _ 0 k r Hk).
  - intros A. unfold current.
    destruct (find _ _) as [o|] eqn:F; [| reflexivity].
    exfalso. apply find_some in F. destruct F as [Io Q].
    apply Z.eqb_eq in Q.
    destruct (imap_In _ _ _ _ Io) as [i [a [Ia ->]]].
    rewrite object_of_id in Q.
    apply filter_In in Ia. destruct Ia as [Ia Aa].
    rewrite (same_id_same_row (users db) a r ND Ia I Q) in Aa. congruence.
Qed.

Lemma current_keeps_columns (w : World) (db : DB) (r : User) :
  NoDup (map id (users db)) ->
  In r (users db) ->
  let r' := current (imap (object_of w (digest w)) 0 (active_users db)) r in
  email r' = email r /\ date_subscribed r' = date_subscribed r /\
  is_active r' = is_active r /\
  (is_active r = false -> r' = r).
Proof.
  intros ND I r'. subst r'.
  destruct (current_after_loop w db r ND I) as [A B].
  destruct (is_active r) eqn:Act.
  - destruct (A eq_refl) as [k ->].
    destruct (object_of_cases w (digest w) k r) as [-> | ->];
      cbn; rewrite ?Act; repeat split; auto; discriminate.
  - rewrite (B eq_refl), Act. repeat split; auto.
Qed.

(** X7: a run changes nothing of the table of subscribers but
    [last_email_sent]: the rows keep their order, ids, addresses,
    subscription times and active flags, so the primary key still holds, and
    the row of an inactive subscriber is left as it was. *)
Theorem run_keeps_subscribers :
  forall (w : World) (db : DB),
    primary_key db = true ->
    let after := db_after (send_daily_news w db) in
    map id (users after) = map id (users db) /\
    map email (users after) = map email (users db) /\
    map date_subscribed (users after) = map date_subscribed (users db) /\
    map is_active (users after) = map is_active (users db) /\
    primary_key after = true /\
    (forall r, In r (users db) -> is_active r = false -> In r (users after)).
Proof.
  intros w db PK after. subst after.
  assert (Same : db_after (send_daily_news w db) = db ->
                 map id (users (db_after (send_daily_news w db))) =
                   map id (users db) /\
                 map email (users (db_after (send_daily_news w db))) =
                   map email (users db) /\
                 map date_subscribed (users (db_after (send_daily_news w db))) =
                   map date_subscribed (users db) /\
                 map is_active (users (db_after (send_daily_news w db))) =
                   map is_active (users db) /\
                 primary_key (db_after (send_daily_news w db)) = true /\
                 (forall r, In r (users db) -> is_active r = false ->
                            In r (users (db_after (send_daily_news w db))))).
  { intros ->. repeat split; auto. }
  destruct (run_cases w db) as [[_ [B _]] | [Hu Hn]]; [auto |].
  destruct (run_shape w db Hu Hn) as [S [_ B]].
  destruct (commit_error w); [auto |]. clear Same.
  rewrite B, S. cbn [commit users objects].
  pose proof (distinct_NoDup _ PK) as ND.
  assert (Ids : map id (map (current (imap (object_of w (digest w)) 0
                                          (active_users db))) (users db)) =
                map id (users db)).
  { rewrite map_map. apply map_ext. intros r. apply current_id. }
  split; [exact Ids |].
  split; [| split; [| split; [| split]]].
  - rewrite map_map. apply map_ext_in. intros r I.
    apply (current_keeps_columns w db r ND I).
  - rewrite map_map. apply map_ext_in. intros r I.
    apply (current_keeps_columns w db r ND I).
  - rewrite map_map. apply map_ext_in. intros r I.
    apply (current_keeps_columns w db r ND I).
  - unfold primary_key. cbn [commit users objects]. rewrite Ids. exact PK.
  - intros r I A. apply in_map_iff. exists r. split; [| exact I].
    apply (current_keeps_columns w db r ND I). exact A.
Qed.

Lemma run_keeps_subscribers_witness :
  let after := db_after (send_daily_news sample_world sample_db) in
  map id (users after) = map id (users sample_db) /\
  map email (users after) = map email (users sample_db) /\
  map date_subscribed (users after) = map date_subscribed (users sample_db) /\
  map is_active (users after) = map is_active (users sample_db) /\
  primary_key after = true /\
  (forall r, In r (users sample_db) -> is_active r = false ->
             In r (users after)).
Proof.
  apply (run_keeps_subscribers sample_world sample_db). reflexivity.
Defined.

(** X8: the table of log rows only grows, and by a whole run or not at
    all: after a run it is the old table followed by rows the run added,
    and when any was added the commit went through and the added rows are
    all the rows staged, one per subscriber of the snapshot. *)
Theorem log_only_grows :
  forall (w : World) (db : DB),
    let run := send_daily_news w db in
    exists added,
      email_logs (db_after run) = email_logs db ++ added /\
      (added <> [] ->
       commit_error w = None /\
       added = pending (staged run) /\
       List.length added = List.length (active_users db)).
Proof.
  intros w db run. subst run.
  destruct (run_cases w db) as [[_ [B _]] | [Hu Hn]].
  - exists []. rewrite B, app_nil_r. split; [reflexivity | congruence].
  - destruct (run_shape w db Hu Hn) as [_ [_ B]].
    destruct (commit_error w) eqn:C.
    + exists []. rewrite B, app_nil_r. split; [reflexivity | congruence].
    + exists (pending (staged (send_daily_news w db))).
      rewrite B. cbn [commit email_logs]. split; [reflexivity |].
      intros _. repeat split.
      rewrite (run_rows w db Hu Hn). apply imap_length.
Qed.

(* ------------------------------------------------------------------ *)
(** ** validate_email *)

Section Pattern.
Import Routes.

Lemma span_spec (p : ascii -> bool) (l : list ascii) :
  forall a b,
    span p l = (a, b) ->
    l = a ++ b /\ forallb p a = true /\
    match b with [] => True | c :: _ => p c = false end.
Proof.
  induction l as [|c l IH]; intros a b H; cbn [span] in H.
  - inversion H; subst. repeat split.
  - destruct (p c) eqn:P.
    + destruct (span p l) as [a' b'] eqn:S. inversion H; subst.
      destruct (IH a' b eq_refl) as [E [F T]].
      cbn [app forallb]. rewrite P, F, <- E. repeat split. exact T.
    + inversion H; subst. repeat split. exact P.
Qed.

Lemma span_app (p : ascii -> bool) (a : list ascii) (c : ascii)
      (r : list ascii) :
  forallb p a = true -> p c = false -> span p (a ++ c :: r) = (a, c :: r).
Proof.
  intros F P. induction a as [|x a IH]; cbn [app span].
  - rewrite P. reflexivity.
  - cbn [forallb] in F. apply andb_true_iff in F. destruct F as [Fx Fa].
    rewrite Fx, (IH Fa). reflexivity.
Qed.

Lemma forallb_rev (p : ascii -> bool) (l : list ascii) :
  forallb p (rev l) = forallb p l.
Proof.
  induction l as [|x l IH]; [reflexivity|].
  cbn [rev forallb]. rewrite forallb_app, IH. cbn [forallb].
  rewrite andb_true_r. apply andb_comm.
Qed.

Lemma alpha_not_newline (c : ascii) :
  is_alpha c = true -> Ascii.eqb c "010" = false.
Proof.
  intros A. destruct (Ascii.eqb c "010") eqn:E; [| reflexivity].
  apply Ascii.eqb_eq in E. subst c. discriminate.
Qed.

Lemma validate_email_unfold (email : string) :
  validate_email email =
  match span in_local (list_ascii_of_string email) with
  | (_ :: _, at_sign :: after) =>
      Ascii.eqb at_sign "@" &&
      match span is_alpha (backwards after) with
      | (tld, dot :: ((_ :: _) as dom)) =>
          Ascii.eqb dot "." && (2 <=? List.length tld)%nat &&
          forallb in_domain dom
      | _ => false
      end
  | _ => false
  end.
Proof. reflexivity. Qed.

Lemma backwards_spec (after : list ascii) :
  exists nl, after = rev (backwards after) ++ nl /\
             (nl = [] \/ nl = ["010"%char]).
Proof.
  unfold backwards.
  destruct (rev after) as [|c r] eqn:R.
  - exists []. apply (f_equal (@rev ascii)) in R. rewrite rev_involutive in R.
    rewrite R. split; [reflexivity | auto].
  - apply (f_equal (@rev ascii)) in R. rewrite rev_involutive in R.
    cbn [rev] in R.
    destruct (Ascii.eqb c "010") eqn:E.
    + apply Ascii.eqb_eq in E. subst c. exists ["010"%char]. auto.
    + exists []. rewrite app_nil_r. cbn [rev]. auto.
Qed.

Lemma backwards_build (dom tld nl : list ascii) :
  2 <= List.length tld ->
  forallb is_alpha tld = true ->
  nl = [] \/ nl = ["010"%char] ->
  backwards (dom ++ "."%char :: tld ++ nl) = rev tld ++ "."%char :: rev dom.
Proof.
  intros L A N. unfold backwards.
  assert (R : rev (dom ++ "."%char :: tld ++ nl) =
              rev nl ++ rev tld ++ "."%char :: rev dom).
  { rewrite rev_app_distr. cbn [rev]. rewrite rev_app_distr, <- !app_assoc.
    reflexivity. }
  rewrite R. destruct N as [-> | ->].
  - cbn [rev app].
    destruct (rev tld) as [|c r] eqn:T.
    + apply (f_equal (@List.length ascii)) in T. rewrite length_rev in T.
      simpl in T. lia.
    + assert (is_alpha c = true).
      { rewrite <- forallb_rev, T in A. cbn [forallb] in A.
        apply andb_true_iff in A. tauto. }
      cbn [app]. rewrite (alpha_not_newline c H). reflexivity.
  - reflexivity.
Qed.

Lemma validate_email_sound (email : string) :
  validate_email email = true -> matches_pattern email.
Proof.
  rewrite validate_email_unfold.
  destruct (span in_local (list_ascii_of_string email)) as [loc rest] eqn:S.
  destruct (span_spec _ _ _ _ S) as [E [F _]].
  destruct loc as [|x loc]; [discriminate|].
  destruct rest as [|at_sign after]; [discriminate|].
  intros H. apply andb_true_iff in H. destruct H as [At H].
  apply Ascii.eqb_eq in At. subst at_sign.
  destruct (span is_alpha (backwards after)) as [tld dom] eqn:S2.
  destruct (span_spec _ _ _ _ S2) as [E2 [F2 _]].
  destruct dom as [|dot [|d0 dom]]; try discriminate.
  apply andb_true_iff in H. destruct H as [H D].
  apply andb_true_iff in H. destruct H as [Dot L].
  apply Ascii.eqb_eq in Dot. subst dot.
  apply Nat.leb_le in L.
  destruct (backwards_spec after) as [nl [EA N]].
  exists (x :: loc), (rev (d0 :: dom)), (rev tld), nl.
  split; [| split; [discriminate | split; [exact F |]]].
  - rewrite E. f_equal. f_equal. rewrite EA, E2.
    rewrite rev_app_distr. cbn [rev]. rewrite <- !app_assoc. reflexivity.
  - split.
    { intros Z. apply (f_equal (@List.length ascii)) in Z.
      rewrite length_rev in Z. discriminate. }
    rewrite !forallb_rev, length_rev. tauto.
Qed.

(** X9: [validate_email] accepts exactly the addresses of the form
    local part, ['@'], domain, ['.'], top-level part, followed by at most
    one newline: the local part non-empty and in the class
    [[a-zA-Z0-9._%+-]], the domain non-empty and in [[a-zA-Z0-9.-]], the
    top-level part of two letters or more. *)
Theorem validate_email_iff_pattern :
  forall email : string,
    validate_email email = true <-> matches_pattern email.
Proof.
  intros email. split; [apply validate_email_sound |].
  rewrite validate_email_unfold.
  intros [loc [dom [tld [nl [E [NL [FL [ND [FD [L [FT N]]]]]]]]]]].
  rewrite E.
  rewrite (span_app in_local loc "@" _ FL eq_refl).
  destruct loc as [|x loc]; [congruence|].
  cbn [Ascii.eqb Bool.eqb andb].
  rewrite (backwards_build dom tld nl L FT N).
  rewrite (span_app is_alpha (rev tld) "." _);
    [| rewrite forallb_rev; exact FT | reflexivity].
  destruct (rev dom) as [|d0 r] eqn:R.
  - apply (f_equal (@List.length ascii)) in R. rewrite length_rev in R.
    destruct dom; [congruence | discriminate].
  - rewrite <- R, forallb_rev, FD, length_rev.
    apply Nat.leb_le in L. rewrite L. reflexivity.
Qed.

End Pattern.

(* ------------------------------------------------------------------ *)
(** ** Normalising an address *)

Section Normalise.
Import Routes.

Lemma is_space_lower_char (c : ascii) : is_space (lower_char c) = is_space c.
Proof.
  destruct c as [[|] [|] [|] [|] [|] [|] [|] [|]]; reflexivity.
Qed.

Lemma lower_char_twice (c : ascii) : lower_char (lower_char c) = lower_char c.
Proof.
  destruct c as [[|] [|] [|] [|] [|] [|] [|] [|]]; reflexivity.
Qed.

Lemma lower_twice (s : string) : lower (lower s) = lower s.
Proof.
  induction s as [|c s IH]; cbn [lower]; [reflexivity|].
  rewrite lower_char_twice, IH. reflexivity.
Qed.

Lemma lstrip_lower (s : string) : lstrip (lower s) = lower (lstrip s).
Proof.
  induction s as [|c s IH]; cbn [lower lstrip]; [reflexivity|].
  rewrite is_space_lower_char. destruct (is_space c); [exact IH | reflexivity].
Qed.

Lemma rstrip_lower (s : string) : rstrip (lower s) = lower (rstrip s).
Proof.
  induction s as [|c s IH]; cbn [lower rstrip]; [reflexivity|].
  rewrite IH, is_space_lower_char.
  destruct (rstrip s); cbn [lower]; [destruct (is_space c) |]; reflexivity.
Qed.

Lemma strip_lower_commute (s : string) :
  strip (lower s) = lower (strip s).
Proof. unfold strip. rewrite lstrip_lower, rstrip_lower. reflexivity. Qed.

Lemma rstrip_cons (c : ascii) (s : string) :
  rstrip (String c s) =
  match rstrip s with
  | EmptyString => if is_space c then EmptyString else String c EmptyString
  | r => String c r
  end.
Proof. reflexivity. Qed.

Lemma rstrip_twice (s : string) : rstrip (rstrip s) = rstrip s.
Proof.
  induction s as [|c s IH]; [reflexivity|].
  rewrite rstrip_cons.
  destruct (rstrip s) as [|d r] eqn:R.
  - destruct (is_space c) eqn:Sp; [reflexivity|].
    rewrite rstrip_cons. cbn [rstrip]. rewrite Sp. reflexivity.
  - rewrite rstrip_cons, IH. reflexivity.
Qed.

Lemma lstrip_clean_head (s : string) : clean_head (lstrip s).
Proof.
  induction s as [|c s IH]; cbn [lstrip]; [exact I|].
  destruct (is_space c) eqn:Sp; [exact IH | exact Sp].
Qed.

Lemma rstrip_clean_head (s : string) : clean_head s -> clean_head (rstrip s).
Proof.
  destruct s as [|c s]; cbn [rstrip clean_head]; [auto|].
  intros Sp. destruct (rstrip s); [rewrite Sp |]; exact Sp.
Qed.

Lemma lstrip_fixed (s : string) : clean_head s -> lstrip s = s.
Proof.
  destruct s as [|c s]; cbn [lstrip clean_head]; [auto|].
  intros ->. reflexivity.
Qed.

Lemma strip_twice (s : string) : strip (strip s) = strip s.
Proof.
  unfold strip.
  rewrite (lstrip_fixed (rstrip (lstrip s)))
    by (apply rstrip_clean_head, lstrip_clean_head).
  apply rstrip_twice.
Qed.

(** X10: normalising an address, [strip] then [lower], is idempotent: a
    normalised address normalises to itself, and so do [strip] and [lower]
    taken alone; lowering an address that was stripped keeps it stripped. *)
Theorem normalising_is_idempotent :
  forall s : string,
    lower (strip (lower (strip s))) = lower (strip s) /\
    strip (strip s) = strip s /\
    lower (lower s) = lower s /\
    strip (lower (strip s)) = lower (strip s).
Proof.
  intros s.
  assert (E : strip (lower (strip s)) = lower (strip s))
    by (rewrite strip_lower_commute, strip_twice; reflexivity).
  repeat split.
  - rewrite E. apply lower_twice.
  - apply strip_twice.
  - apply lower_twice.
  - exact E.
Qed.

End Normalise.

(* ------------------------------------------------------------------ *)
(** ** The subscription routes *)

Section SubscriptionRoutes.
Import Routes.

Lemma update_user_ids (db : DB) (u' : User) :
  map id (users (update_user db u')) = map id (users db).
Proof.
  unfold update_user, commit. cbn [users objects].
  rewrite map_map. apply map_ext. intros r. apply current_id.
Qed.

Lemma update_user_logs (db : DB) (u' : User) :
  email_logs (update_user db u') = email_logs db.
Proof. unfold update_user, commit. cbn. apply app_nil_r. Qed.

Lemma keeps_records_refl (db : DB) : keeps_records db db.
Proof.
  split; [reflexivity |]. exists []. rewrite app_nil_r. split; [reflexivity | simpl; lia].
Qed.

Lemma keeps_records_update (db : DB) (u' : User) :
  keeps_records db (update_user db u').
Proof.
  split; [apply update_user_logs |].
  exists []. rewrite app_nil_r, update_user_ids. split; [reflexivity | simpl; lia].
Qed.

Lemma keeps_records_insert (db : DB) (e : string) (t : datetime) :
  keeps_records db (insert_user db e t).
Proof.
  split; [reflexivity |].
  exists [next_id db]. unfold insert_user. cbn [users].
  rewrite map_app. split; [reflexivity | simpl; lia].
Qed.

(** X11: the form route and the API route do the same to the tables when
    handed the same address, clock and commit outcome, and the API answers
    200 exactly when the form reports a new or reactivated subscription. *)
Theorem routes_agree :
  forall (d : list (string * PyVal)) (raw : string) (now : datetime)
         (commit_error : option string) (db : DB),
    lookup "email" d = Some (PStr raw) ->
    let form := subscribe "POST" (Some raw) now commit_error db in
    let api := api_subscribe (PDict d) now commit_error db in
    fst api = fst form /\
    (code (snd api) = 200%Z <-> welcomed (snd form)).
Proof.
  intros d raw now ce db L form api. subst form api.
  unfold api_subscribe, api_subscribe_try, subscribe, strip_lower, welcomed.
  cbn [String.eqb Ascii.eqb Bool.eqb get bind]. rewrite L. cbn [bind].
  destruct (String.length (lower (strip raw)) =? 0)%nat;
    cbn [orb negb fst snd code];
    [split; [reflexivity | split; [discriminate | intros [H | H]; discriminate]] |].
  destruct (validate_email (lower (strip raw)));
    cbn [orb negb fst snd code];
    [| split; [reflexivity | split; [discriminate | intros [H | H]; discriminate]]].
  destruct (first_by_email db (lower (strip raw))) as [u|].
  - destruct (is_active u);
      [split; [reflexivity | split; [discriminate | intros [H | H]; discriminate]] |].
    destruct ce; cbn [fst snd code];
      (split; [reflexivity |]);
      (split; [try discriminate; auto | try reflexivity;
               intros [H | H]; discriminate]).
  - destruct ce; cbn [fst snd code];
      (split; [reflexivity |]);
      (split; [try discriminate; auto | try reflexivity;
               intros [H | H]; discriminate]).
Qed.

Lemma routes_agree_witness :
  let form := subscribe "POST" (Some "  B@X.io ") 99 None lapsed_db in
  let api := api_subscribe (PDict [("email", PStr "  B@X.io ")]) 99 None
                           lapsed_db in
  fst api = fst form /\
  (code (snd api) = 200%Z <-> welcomed (snd form)).
Proof.
  apply (routes_agree [("email", PStr "  B@X.io ")] "  B@X.io " 99 None
                      lapsed_db).
  reflexivity.
Defined.

Lemma subscribe_frame (method : string) (form_email : option string)
      (now : datetime) (ce : option string) (db : DB) :
  keeps_records db (fst (subscribe method form_email now ce db)) /\
  (~ welcomed (snd (subscribe method form_email now ce db)) ->
   fst (subscribe method form_email now ce db) = db).
Proof.
  unfold subscribe, welcomed.
  destruct (String.eqb method "POST");
    [| split; [apply keeps_records_refl | reflexivity]].
  destruct (String.length _ =? 0)%nat;
    [split; [apply keeps_records_refl | reflexivity] |].
  destruct (validate_email _); cbn [negb];
    [| split; [apply keeps_records_refl | reflexivity]].
  destruct (first_by_email db _) as [u|].
  - destruct (is_active u); [split; [apply keeps_records_refl | reflexivity] |].
    destruct ce; cbn [fst snd];
      [split; [apply keeps_records_refl | reflexivity] |].
    split; [apply keeps_records_update | intros H; exfalso; apply H; auto].
  - destruct ce; cbn [fst snd];
      [split; [apply keeps_records_refl | reflexivity] |].
    split; [apply keeps_records_insert | intros H; exfalso; apply H; auto].
Qed.

Lemma api_subscribe_frame (data : PyVal) (now : datetime)
      (ce : option string) (db : DB) :
  keeps_records db (fst (api_subscribe data now ce db)) /\
  (code (snd (api_subscribe data now ce db)) <> 200%Z ->
   fst (api_subscribe data now ce db) = db).
Proof.
  unfold api_subscribe, api_subscribe_try.
  destruct (get data "email" (PStr "")) as [v|e]; cbn [bind];
    [| split; [apply keeps_records_refl | reflexivity]].
  destruct (strip_lower v) as [email|e]; cbn [bind];
    [| split; [apply keeps_records_refl | reflexivity]].
  destruct ((String.length email =? 0)%nat || negb (validate_email email));
    [split; [apply keeps_records_refl | reflexivity] |].
  destruct (first_by_email db email) as [u|].
  - destruct (is_active u); [split; [apply keeps_records_refl | reflexivity] |].
    destruct ce; cbn [fst snd code];
      [split; [apply keeps_records_refl | reflexivity] |].
    split; [apply keeps_records_update | congruence].
  - destruct ce; cbn [fst snd code];
      [split; [apply keeps_records_refl | reflexivity] |].
    split; [apply keeps_records_insert | congruence].
Qed.

Lemma unsubscribe_frame (e : string) (ce : option string) (db : DB) :
  keeps_records db (fst (unsubscribe e ce db)) /\
  map id (users (fst (unsubscribe e ce db))) = map id (users db) /\
  (snd (unsubscribe e ce db) <> Unsubscribed -> fst (unsubscribe e ce db) = db).
Proof.
  unfold unsubscribe.
  destruct (first_by_email db (lower e)) as [u|];
    [| split; [apply keeps_records_refl | split; reflexivity]].
  destruct (is_active u);
    [| split; [apply keeps_records_refl | split; reflexivity]].
  destruct ce; cbn [fst snd];
    [split; [apply keeps_records_refl | split; reflexivity] |].
  split; [apply keeps_records_update |].
  split; [apply update_user_ids | congruence].
Qed.

(** X12: whatever they are handed, the three subscription routes leave the
    log table as it is and remove or renumber no subscriber record;
    [subscribe] and [api_subscribe] add at most one record and
    [unsubscribe] adds none; and a route that does not report success (a
    new or reactivated subscription, status 200, an unsubscription) leaves
    both tables exactly as they were. *)
Theorem routes_change_little :
  forall (method : string) (form_email : option string) (data : PyVal)
         (address : string) (now : datetime) (commit_error : option string)
         (db : DB),
    let form := subscribe method form_email now commit_error db in
    let api := api_subscribe data now commit_error db in
    let bye := unsubscribe address commit_error db in
    (keeps_records db (fst form) /\
     (~ welcomed (snd form) -> fst form = db)) /\
    (keeps_records db (fst api) /\
     (code (snd api) <> 200%Z -> fst api = db)) /\
    (keeps_records db (fst bye) /\
     map id (users (fst bye)) = map id (users db) /\
     (snd bye <> Unsubscribed -> fst bye = db)).
Proof.
  intros. split; [apply subscribe_frame |].
  split; [apply api_subscribe_frame | apply unsubscribe_frame].
Qed.

End SubscriptionRoutes.

(* ------------------------------------------------------------------ *)
(** ** Keys and lookups *)

Section Keys.
Import Routes.

Lemma NoDup_distinct (ids : list Z) : NoDup ids -> distinct ids = true.
Proof.
  induction 1 as [|i ids N _ IH]; [reflexivity|].
  cbn [distinct]. rewrite IH, andb_true_r. apply negb_true_iff.
  apply not_true_is_false. intros E. apply existsb_exists in E.
  destruct E as [j [I Q]]. apply Z.eqb_eq in Q. subst j. contradiction.
Qed.

Lemma distinct_addresses_NoDup (l : list string) :
  distinct_addresses l = true <-> NoDup l.
Proof.
  induction l as [|e l IH]; cbn [distinct_addresses].
  - split; [constructor | reflexivity].
  - rewrite andb_true_iff, negb_true_iff, IH. split.
    + intros [E N]. constructor; [| exact N].
      intros I. assert (X : existsb (String.eqb e) l = true)
        by (apply existsb_exists; exists e; split;
            [exact I | apply String.eqb_refl]).
      congruence.
    + intros N. inversion N as [|? ? NI NL]; subst. split; [| exact NL].
      apply not_true_is_false. intros E. apply existsb_exists in E.
      destruct E as [j [I Q]]. apply String.eqb_eq in Q. subst j.
      contradiction.
Qed.

Lemma same_email_same_row (l : list User) (a b : User) :
  NoDup (map email l) -> In a l -> In b l -> email a = email b -> a = b.
Proof.
  induction l as [|x l IH]; simpl; intros H Ia Ib E; [contradiction|].
  inversion H as [|? ? Hn Hl]; subst.
  destruct Ia as [-> | Ia], Ib as [-> | Ib]; auto.
  - exfalso. apply Hn. rewrite E. apply in_map. exact Ib.
  - exfalso. apply Hn. rewrite <- E. apply in_map. exact Ia.
Qed.

Lemma max_id_bounds (ids : list Z) (i : Z) :
  In i ids -> (i <= fold_right Z.max 0 ids)%Z.
Proof.
  induction ids as [|j ids IH]; cbn [fold_right]; intros H; [contradiction|].
  destruct H as [-> | H]; [lia | specialize (IH H); lia].
Qed.

Lemma next_id_fresh (db : DB) : ~ In (next_id db) (map id (users db)).
Proof.
  intros H. apply max_id_bounds in H. unfold next_id in H. lia.
Qed.

Lemma first_by_email_absent (db : DB) (e : string) :
  first_by_email db e = None -> ~ In e (map email (users db)).
Proof.
  unfold first_by_email. intros F I. apply in_map_iff in I.
  destruct I as [u [E I]].
  pose proof (find_none _ _ F u I) as N. cbn in N.
  rewrite E, String.eqb_refl in N. discriminate.
Qed.

Lemma first_by_email_insert (db : DB) (e : string) (t : datetime) :
  first_by_email db e = None ->
  first_by_email (insert_user db e t) e = Some (mkUser (next_id db) e t true None).
Proof.
  unfold first_by_email, insert_user. cbn [users].
  induction (users db) as [|x l IH]; cbn [find app]; intros F.
  - cbn [email]. rewrite String.eqb_refl. reflexivity.
  - destruct (String.eqb (email x) e); [discriminate | apply IH; exact F].
Qed.

Lemma current_single (u' x : User) :
  current [u'] x = if (id u' =? id x)%Z then u' else x.
Proof.
  unfold current. cbn [find]. destruct (id u' =? id x)%Z; reflexivity.
Qed.

Lemma update_user_users (db : DB) (u' : User) :
  users (update_user db u') =
  map (fun x => if (id u' =? id x)%Z then u' else x) (users db).
Proof.
  unfold update_user, commit. cbn [users objects].
  apply map_ext. intros x. apply current_single.
Qed.

Lemma update_user_In (db : DB) (u u' r : User) :
  In u (users db) ->
  id u' = id u ->
  (In r (users (update_user db u')) <->
   r = u' \/ (In r (users db) /\ id r <> id u)).
Proof.
  intros I E. rewrite update_user_users, in_map_iff. split.
  - intros [x [Q Ix]]. destruct (id u' =? id x)%Z eqn:D.
    + left. auto.
    + right. subst r. apply Z.eqb_neq in D. split; [exact Ix | congruence].
  - intros [-> | [Ir N]].
    + exists u. rewrite E, Z.eqb_refl. auto.
    + exists r. split; [| exact Ir].
      destruct (id u' =? id r)%Z eqn:D; [| reflexivity].
      apply Z.eqb_eq in D. congruence.
Qed.

Lemma first_by_email_update (db : DB) (e : string) (u u' : User) :
  primary_key db = true ->
  first_by_email db e = Some u ->
  id u' = id u ->
  email u' = email u ->
  first_by_email (update_user db u') e = Some u'.
Proof.
  intros PK F Hid Hem. apply distinct_NoDup in PK.
  unfold first_by_email in *. rewrite update_user_users.
  induction (users db) as [|x l IH]; cbn [find map] in *; [discriminate|].
  cbn [map] in PK. inversion PK as [|? ? Nx Nl]; subst.
  destruct (String.eqb (email x) e) eqn:Q.
  - inversion F; subst x. rewrite Hid, Z.eqb_refl, Hem, Q. reflexivity.
  - assert (D : (id u' =? id x)%Z = false).
    { apply Z.eqb_neq. intros D. apply Nx. rewrite <- D, Hid.
      apply in_map. apply find_some in F. tauto. }
    rewrite D, Q. apply (IH Nl F).
Qed.

Lemma update_user_twice (db : DB) (a b : User) :
  id a = id b -> update_user (update_user db a) b = update_user db b.
Proof.
  intros E.
  assert (U : users (update_user (update_user db a) b) =
              users (update_user db b)).
  { rewrite !update_user_users, map_map. apply map_ext. intros x.
    destruct (id a =? id x)%Z eqn:D.
    - rewrite E, Z.eqb_refl. rewrite E in D. rewrite D. reflexivity.
    - reflexivity. }
  assert (L : email_logs (update_user (update_user db a) b) =
              email_logs (update_user db b))
    by (rewrite !update_user_logs; reflexivity).
  destruct (update_user (update_user db a) b), (update_user db b).
  cbn in U, L. subst. reflexivity.
Qed.

Lemma keys_after_update (db : DB) (u u' : User) :
  primary_key db = true ->
  In u (users db) ->
  id u' = id u ->
  email u' = email u ->
  primary_key (update_user db u') = primary_key db /\
  unique_email (update_user db u') = unique_email db.
Proof.
  intros PK I Hid Hem.
  destruct (update_user_rows db u u' PK I Hid Hem) as [_ [Ids [Ems _]]].
  unfold primary_key, unique_email. rewrite Ids, Ems. auto.
Qed.

Lemma distinct_snoc (ids : list Z) (i : Z) :
  distinct ids = true -> ~ In i ids -> distinct (ids ++ [i]) = true.
Proof.
  intros D N. apply NoDup_distinct. apply distinct_NoDup in D.
  induction D as [|j ids Nj _ IH]; cbn [app].
  - constructor; [intros [] | constructor].
  - constructor.
    + intros I. apply in_app_or in I. destruct I as [I | [-> | []]];
        [contradiction | apply N; left; reflexivity].
    + apply IH. intros I. apply N. right. exact I.
Qed.

Lemma distinct_addresses_snoc (l : list string) (e : string) :
  distinct_addresses l = true -> ~ In e l ->
  distinct_addresses (l ++ [e]) = true.
Proof.
  intros D N. apply distinct_addresses_NoDup.
  apply distinct_addresses_NoDup in D.
  induction D as [|j l Nj _ IH]; cbn [app].
  - constructor; [intros [] | constructor].
  - constructor.
    + intros I. apply in_app_or in I. destruct I as [I | [-> | []]];
        [contradiction | apply N; left; reflexivity].
    + apply IH. intros I. apply N. right. exact I.
Qed.

Lemma keys_after_insert (db : DB) (e : string) (t : datetime) :
  primary_key db = true ->
  unique_email db = true ->
  first_by_email db e = None ->
  primary_key (insert_user db e t) = true /\
  unique_email (insert_user db e t) = true.
Proof.
  intros PK UE F. unfold primary_key, unique_email, insert_user in *.
  cbn [users]. rewrite !map_app. cbn [map id email]. split.
  - apply distinct_snoc; [exact PK | apply next_id_fresh].
  - apply distinct_addresses_snoc;
      [exact UE | apply first_by_email_absent; exact F].
Qed.

End Keys.

(* ------------------------------------------------------------------ *)
(** ** Subscribing, unsubscribing and the next run *)

Section Lifecycle.
Import Routes.

(** After a subscription request that is accepted, the address is that of
    an active record, the first under it. *)
Lemma subscribed_after (db : DB) (raw : string) (now : datetime) :
  primary_key db = true ->
  validate_email (lower (strip raw)) = true ->
  exists a,
    first_by_email (fst (subscribe "POST" (Some raw) now None db))
                   (lower (strip raw)) = Some a /\
    is_active a = true /\
    email a = lower (strip raw).
Proof.
  intros PK V. unfold subscribe. cbn [String.eqb Ascii.eqb Bool.eqb].
  rewrite (validate_email_nonempty _ V), V. cbn [negb].
  destruct (first_by_email db (lower (strip raw))) as [u|] eqn:F.
  - destruct (first_by_email_found db _ u F) as [I E].
    destruct (is_active u) eqn:A; cbn [fst].
    + exists u. auto.
    + exists (reactivate u now). split; [| split; [reflexivity | exact E]].
      apply (first_by_email_update db _ u); auto.
  - cbn [fst]. eexists. split; [apply first_by_email_insert; exact F |].
    split; reflexivity.
Qed.

(** X13: subscribing is idempotent: after a subscription request that is
    accepted (valid address, commit goes through), the same request finds
    the address subscribed, reports so and changes nothing. *)
Theorem subscribe_twice :
  forall (db : DB) (raw : string) (now later : datetime)
         (commit_error : option string),
    primary_key db = true ->
    validate_email (lower (strip raw)) = true ->
    let db' := fst (subscribe "POST" (Some raw) now None db) in
    subscribe "POST" (Some raw) later commit_error db' =
    (db', Redirect "main.home" AlreadySubscribed).
Proof.
  intros db raw now later ce PK V db'. subst db'.
  destruct (subscribed_after db raw now PK V) as [a [F [A _]]].
  set (db' := fst (subscribe "POST" (Some raw) now None db)) in *.
  unfold subscribe at 1. cbn [String.eqb Ascii.eqb Bool.eqb].
  rewrite (validate_email_nonempty _ V), V. cbn [negb].
  rewrite F, A. reflexivity.
Qed.

Lemma subscribe_twice_witness :
  let db' := fst (subscribe "POST" (Some "  B@X.io ") 99 None lapsed_db) in
  subscribe "POST" (Some "  B@X.io ") 100 None db' =
  (db', Redirect "main.home" AlreadySubscribed).
Proof.
  apply (subscribe_twice lapsed_db "  B@X.io " 99 100 None); reflexivity.
Defined.

Lemma subscribe_keys (method : string) (form_email : option string)
      (now : datetime) (ce : option string) (db : DB) :
  primary_key db = true ->
  unique_email db = true ->
  primary_key (fst (subscribe method form_email now ce db)) = true /\
  unique_email (fst (subscribe method form_email now ce db)) = true.
Proof.
  intros PK UE. unfold subscribe.
  destruct (String.eqb method "POST"); [| auto].
  destruct (String.length _ =? 0)%nat; [auto |].
  destruct (validate_email _); cbn [negb]; [| auto].
  destruct (first_by_email db _) as [u|] eqn:F.
  - destruct (is_active u); [auto |]. destruct ce; cbn [fst]; [auto |].
    destruct (first_by_email_found db _ u F) as [I _].
    destruct (keys_after_update db u (reactivate u now) PK I eq_refl eq_refl)
      as [-> ->]. auto.
  - destruct ce; cbn [fst]; [auto |]. apply keys_after_insert; assumption.
Qed.

Lemma api_subscribe_keys (data : PyVal) (now : datetime)
      (ce : option string) (db : DB) :
  primary_key db = true ->
  unique_email db = true ->
  primary_key (fst (api_subscribe data now ce db)) = true /\
  unique_email (fst (api_subscribe data now ce db)) = true.
Proof.
  intros PK UE. unfold api_subscribe, api_subscribe_try.
  destruct (get data "email" (PStr "")) as [v|e]; cbn [bind]; [| auto].
  destruct (strip_lower v) as [email|e]; cbn [bind]; [| auto].
  destruct ((String.length email =? 0)%nat || negb (validate_email email));
    [auto |].
  destruct (first_by_email db email) as [u|] eqn:F.
  - destruct (is_active u); [auto |]. destruct ce; cbn [fst]; [auto |].
    destruct (first_by_email_found db _ u F) as [I _].
    destruct (keys_after_update db u (reactivate u now) PK I eq_refl eq_refl)
      as [-> ->]. auto.
  - destruct ce; cbn [fst]; [auto |]. apply keys_after_insert; assumption.
Qed.

Lemma unsubscribe_keys (e : string) (ce : option string) (db : DB) :
  primary_key db = true ->
  unique_email db = true ->
  primary_key (fst (unsubscribe e ce db)) = true /\
  unique_email (fst (unsubscribe e ce db)) = true.
Proof.
  intros PK UE. unfold unsubscribe.
  destruct (first_by_email db (lower e)) as [u|] eqn:F; [| auto].
  destruct (is_active u); [| auto]. destruct ce; cbn [fst]; [auto |].
  destruct (first_by_email_found db _ u F) as [I _].
  destruct (keys_after_update db u (deactivate u) PK I eq_refl eq_refl)
    as [-> ->]. auto.
Qed.

(** X14: the two constraints of the table of subscribers, distinct ids and
    distinct addresses, are kept by [subscribe], [api_subscribe] and
    [unsubscribe], whatever the request: an address never gets a second
    record. *)
Theorem routes_keep_keys :
  forall (method : string) (form_email : option string) (data : PyVal)
         (address : string) (now : datetime) (commit_error : option string)
         (db : DB),
    primary_key db = true ->
    unique_email db = true ->
    let form := fst (subscribe method form_email now commit_error db) in
    let api := fst (api_subscribe data now commit_error db) in
    let bye := fst (unsubscribe address commit_error db) in
    (primary_key form = true /\ unique_email form = true) /\
    (primary_key api = true /\ unique_email api = true) /\
    (primary_key bye = true /\ unique_email bye = true).
Proof.
  intros. split; [apply subscribe_keys; assumption |].
  split; [apply api_subscribe_keys | apply unsubscribe_keys]; assumption.
Qed.

Lemma routes_keep_keys_witness :
  let form := fst (subscribe "POST" (Some "new@x.io") 99 None lapsed_db) in
  let api := fst (api_subscribe (PDict [("email", PStr "B@x.io")]) 99 None
                                lapsed_db) in
  let bye := fst (unsubscribe "A@x.io" None lapsed_db) in
  (primary_key form = true /\ unique_email form = true) /\
  (primary_key api = true /\ unique_email api = true) /\
  (primary_key bye = true /\ unique_email bye = true).
Proof.
  apply (routes_keep_keys "POST" (Some "new@x.io")
                          (PDict [("email", PStr "B@x.io")]) "A@x.io" 99 None
                          lapsed_db); reflexivity.
Defined.

(** X15: unsubscribing the address of an active record, the commit going
    through, makes that record inactive and keeps its id, address,
    subscription time and [last_email_sent]; the log table and the other
    records are as before; and a second unsubscription finds the record
    inactive, reports so and changes nothing. *)
Theorem unsubscribe_deactivates :
  forall (db : DB) (address : string) (u : User)
         (commit_error : option string),
    primary_key db = true ->
    first_by_email db (lower address) = Some u ->
    is_active u = true ->
    let bye := unsubscribe address None db in
    let db' := fst bye in
    let u' := mkUser (id u) (email u) (date_subscribed u) false
                     (last_email_sent u) in
    snd bye = Unsubscribed /\
    email_logs db' = email_logs db /\
    map id (users db') = map id (users db) /\
    map email (users db') = map email (users db) /\
    In u' (users db') /\
    (forall r, In r (users db') -> id r = id u -> r = u') /\
    (forall r, In r (users db) -> id r <> id u -> In r (users db')) /\
    unsubscribe address commit_error db' = (db', AlreadyUnsubscribed).
Proof.
  intros db address u ce PK F A bye db' u'. subst bye db' u'.
  destruct (first_by_email_found db _ u F) as [I _].
  assert (E : unsubscribe address None db =
              (update_user db (deactivate u), Unsubscribed))
    by (unfold unsubscribe; rewrite F, A; reflexivity).
  rewrite E. cbn [fst snd].
  destruct (update_user_rows db u (deactivate u) PK I eq_refl eq_refl)
    as [L [Hi [He [Hin [Hsame Hother]]]]].
  repeat split; auto.
  unfold unsubscribe.
  rewrite (first_by_email_update db _ u (deactivate u) PK F eq_refl eq_refl).
  reflexivity.
Qed.

Lemma unsubscribe_deactivates_witness :
  let bye := unsubscribe "B@x.io" None member_db in
  let db' := fst bye in
  let u' := mkUser 2 "b@x.io" 20 false (Some 15%Z) in
  snd bye = Unsubscribed /\
  email_logs db' = email_logs member_db /\
  map id (users db') = map id (users member_db) /\
  map email (users db') = map email (users member_db) /\
  In u' (users db') /\
  (forall r, In r (users db') -> id r = 2%Z -> r = u') /\
  (forall r, In r (users member_db) -> id r <> 2%Z -> In r (users db')) /\
  unsubscribe "B@x.io" None db' = (db', AlreadyUnsubscribed).
Proof.
  apply (unsubscribe_deactivates member_db "B@x.io"
                                 (mkUser 2 "b@x.io" 20 true (Some 15%Z)) None);
    reflexivity.
Defined.

End Lifecycle.

Section NextRun.
Import Routes.

Lemma run_recipients (w : World) (db : DB) (m : string * list Article) :
  In m (mails (trace (send_daily_news w db))) ->
  exists a, In a (active_users db) /\ m = (email a, digest w).
Proof.
  intros H.
  destruct (active_users db) as [|u us] eqn:U.
  - unfold send_daily_news in H. rewrite U in H. contradiction.
  - assert (Hu : active_users db <> []) by (rewrite U; discriminate).
    destruct (digest w) as [|x news] eqn:D.
    + destruct (run_without_digest w db Hu D) as [T _].
      rewrite T in H. contradiction.
    + assert (Hn : digest w <> []) by (rewrite D; discriminate).
      rewrite (run_mails w db Hu Hn) in H.
      apply in_map_iff in H. destruct H as [a [E I]].
      exists a. rewrite U in I. rewrite <- D. auto.
Qed.

(** X16: an address that has just been unsubscribed is not written to by
    the next run of the job, whatever the world does. *)
Theorem unsubscribed_is_not_mailed :
  forall (db : DB) (address : string) (commit_error : option string)
         (w : World),
    primary_key db = true ->
    unique_email db = true ->
    snd (unsubscribe address commit_error db) = Unsubscribed ->
    let db' := fst (unsubscribe address commit_error db) in
    ~ In (lower address) (map fst (mails (trace (send_daily_news w db')))).
Proof.
  intros db address ce w PK UE R db'. subst db'.
  unfold unsubscribe in *.
  destruct (first_by_email db (lower address)) as [u|] eqn:F;
    [| discriminate].
  destruct (is_active u) eqn:A; [| discriminate].
  destruct ce; [discriminate |]. cbn [fst].
  destruct (first_by_email_found db _ u F) as [I E].
  intros H. apply in_map_iff in H. destruct H as [m [Em Hm]].
  destruct (run_recipients w _ m Hm) as [a [Ia ->]]. cbn [fst] in Em.
  apply filter_In in Ia. destruct Ia as [Ia Act].
  apply (update_user_In db u (deactivate u) a I eq_refl) in Ia.
  destruct Ia as [-> | [Ia N]]; [discriminate |].
  apply N. f_equal.
  apply (same_email_same_row (users db)); auto; [| congruence].
  apply distinct_addresses_NoDup. exact UE.
Qed.

Lemma unsubscribed_is_not_mailed_witness :
  let db' := fst (unsubscribe "B@x.io" None member_db) in
  ~ In (lower "B@x.io")
       (map fst (mails (trace (send_daily_news sample_world db')))).
Proof.
  apply (unsubscribed_is_not_mailed member_db "B@x.io" None sample_world);
    reflexivity.
Defined.

(** X17: an address whose subscription request has just been accepted
    (valid address, commit goes through) is sent the digest by the next run
    of the job, as long as the digest is not empty. *)
Theorem subscribed_is_mailed :
  forall (db : DB) (raw : string) (now : datetime) (w : World),
    primary_key db = true ->
    validate_email (lower (strip raw)) = true ->
    digest w <> [] ->
    let db' := fst (subscribe "POST" (Some raw) now None db) in
    In (lower (strip raw), digest w) (mails (trace (send_daily_news w db'))).
Proof.
  intros db raw now w PK V Hn db'. subst db'.
  destruct (subscribed_after db raw now PK V) as [a [F [A E]]].
  set (db' := fst (subscribe "POST" (Some raw) now None db)) in *.
  destruct (first_by_email_found db' _ a F) as [I _].
  assert (Ia : In a (active_users db')) by (apply filter_In; auto).
  assert (Hu : active_users db' <> [])
    by (intros Z; rewrite Z in Ia; contradiction).
  rewrite (run_mails w db' Hu Hn). apply in_map_iff.
  exists a. rewrite E. auto.
Qed.

Lemma subscribed_is_mailed_witness :
  let db' := fst (subscribe "POST" (Some "  B@X.io ") 99 None lapsed_db) in
  In (lower (strip "  B@X.io "), digest sample_world)
     (mails (trace (send_daily_news sample_world db'))).
Proof.
  apply (subscribed_is_mailed lapsed_db "  B@X.io " 99 sample_world);
    [reflexivity | reflexivity | discriminate].
Defined.

(** X18: leaving and coming back.  When an active record is unsubscribed
    through its stored address and the address is then subscribed again,
    both commits going through, the tables are the ones before the two
    requests except for the subscription time of that record, which is the
    clock reading of the second request. *)
Theorem leave_and_return :
  forall (db : DB) (raw : string) (now : datetime) (u : User),
    primary_key db = true ->
    validate_email (lower (strip raw)) = true ->
    first_by_email db (lower (strip raw)) = Some u ->
    is_active u = true ->
    let away := fst (unsubscribe (email u) None db) in
    let back := subscribe "POST" (Some raw) now None away in
    let u' := mkUser (id u) (email u) now true (last_email_sent u) in
    snd back = Redirect "main.home" Reactivated /\
    email_logs (fst back) = email_logs db /\
    users (fst back) =
      map (fun r => if (id u' =? id r)%Z then u' else r) (users db).
Proof.
  intros db raw now u PK V F A away back u'. subst away back u'.
  destruct (first_by_email_found db _ u F) as [I E].
  assert (L : lower (email u) = lower (strip raw))
    by (rewrite E; apply lower_twice).
  assert (E1 : unsubscribe (email u) None db =
               (update_user db (deactivate u), Unsubscribed))
    by (unfold unsubscribe; rewrite L, F, A; reflexivity).
  rewrite E1. cbn [fst].
  pose proof (first_by_email_update db _ u (deactivate u) PK F eq_refl eq_refl)
    as F1.
  unfold subscribe. cbn [String.eqb Ascii.eqb Bool.eqb].
  rewrite (validate_email_nonempty _ V), V. cbn [negb].
  rewrite F1. cbn [is_active deactivate fst snd].
  rewrite update_user_twice by reflexivity.
  split; [reflexivity |]. split; [apply update_user_logs |].
  apply update_user_users.
Qed.

Lemma leave_and_return_witness :
  let away := fst (unsubscribe "b@x.io" None member_db) in
  let back := subscribe "POST" (Some "  B@X.io ") 99 None away in
  let u' := mkUser 2 "b@x.io" 99 true (Some 15%Z) in
  snd back = Redirect "main.home" Reactivated /\
  email_logs (fst back) = email_logs member_db /\
  users (fst back) =
    map (fun r => if (id u' =? id r)%Z then u' else r) (users member_db).
Proof.
  apply (leave_and_return member_db "  B@X.io " 99
                          (mkUser 2 "b@x.io" 20 true (Some 15%Z)));
    reflexivity.
Defined.

End NextRun.

(* ------------------------------------------------------------------ *)
(** ** test_send_now *)

Section SendNow.
Import Routes.

Variable w : World.
Variable articles : list Article.

Lemma send_now_loop_calls (users : list User) :
  forall results calls k,
    exists n,
      n <= List.length users /\
      snd (send_now_loop w articles results calls k users) =
      calls ++ map (fun u => SendMail (email u) articles) (firstn n users).
Proof.
  induction users as [|u users IH]; intros results calls k.
  - exists 0. cbn. rewrite app_nil_r. auto.
  - cbn [send_now_loop].
    destruct (send_news_email w k (email u) articles) as [b|text].
    + destruct (IH (results ++ [(email u, b)])
                   (calls ++ [SendMail (email u) articles]) (S k))
        as [n [L E]].
      exists (S n). split; [simpl; lia |].
      rewrite E. cbn [firstn map]. rewrite <- app_assoc. reflexivity.
    + exists 1. split; [simpl; lia | reflexivity].
Qed.

Lemma send_now_loop_through (users : list User) :
  forall results calls k,
    (forall j v, nth_error users j = Some v ->
                 returns (outcome w articles (k + j) v) = true) ->
    send_now_loop w articles results calls k users =
    (inl (results ++ imap (fun i v => (email v, flag w articles i v)) k users),
     calls ++ map (fun u => SendMail (email u) articles) users).
Proof.
  induction users as [|u users IH]; intros results calls k H.
  - cbn. rewrite !app_nil_r. reflexivity.
  - cbn [send_now_loop imap map].
    pose proof (H 0 u eq_refl) as H0. rewrite Nat.add_0_r in H0.
    unfold flag at 1. unfold outcome in *.
    destruct (send_news_email w k (email u) articles) as [b|text];
      [| discriminate].
    rewrite IH.
    + rewrite <- !app_assoc. reflexivity.
    + intros j v Hj. specialize (H (S j) v Hj).
      rewrite Nat.add_succ_r in H. exact H.
Qed.

Lemma send_now_loop_abort (users : list User) :
  forall results calls k j u text,
    nth_error users j = Some u ->
    outcome w articles (k + j) u = Raises text ->
    (forall i v, i < j -> nth_error users i = Some v ->
                 returns (outcome w articles (k + i) v) = true) ->
    send_now_loop w articles results calls k users =
    (inr text, calls ++ map (fun u => SendMail (email u) articles) (firstn (S j) users)).
Proof.
  induction users as [|x users IH]; intros results calls k j u text Hj R Before.
  - destruct j; discriminate.
  - cbn [send_now_loop]. destruct j as [|j].
    + cbn in Hj. inversion Hj; subst x. rewrite Nat.add_0_r in R.
      unfold outcome in R. rewrite R. reflexivity.
    + pose proof (Before 0 x (Nat.lt_0_succ j) eq_refl) as B0.
      rewrite Nat.add_0_r in B0. unfold outcome in B0.
      destruct (send_news_email w k (email x) articles) as [b|t];
        [| discriminate].
      rewrite (IH _ _ (S k) j u text Hj).
      * cbn [firstn map]. rewrite <- app_assoc. reflexivity.
      * rewrite Nat.add_succ_r in R. exact R.
      * intros i v Li Hi.
        assert (B : returns (outcome w articles (k + S i) v) = true)
          by (apply (Before (S i) v); [lia | exact Hi]).
        rewrite Nat.add_succ_r in B. exact B.
Qed.

End SendNow.

Section SendNowRoute.
Import Routes.

Lemma manual_digest_bounds (w : World) :
  1 <= List.length (manual_digest w) <= 5.
Proof.
  unfold manual_digest. pose proof (digest_at_most_five w) as L.
  destruct (digest w); [simpl; lia | simpl in *; lia].
Qed.

Lemma test_send_now_unfold (w : World) (db : DB) :
  active_users db <> [] ->
  test_send_now w db =
  match send_now_loop w (manual_digest w) [] [FetchNews] 0 (active_users db) with
  | (inl results, calls) =>
      (SentNow results (List.length (manual_digest w)), calls)
  | (inr text, calls) => (SendNowError text, calls)
  end.
Proof.
  intros Hu. unfold test_send_now, manual_digest, digest.
  destruct (active_users db); [congruence | reflexivity].
Qed.

Lemma In_firstn {A : Type} (n : nat) :
  forall (l : list A) (a : A), In a (firstn n l) -> In a l.
Proof.
  induction n as [|n IH]; intros [|x l] a H; cbn [firstn] in H;
    try contradiction.
  destruct H as [-> | H]; [left; reflexivity | right; apply (IH l a H)].
Qed.

Lemma mails_calls (articles : list Article) (us : list User) :
  mails (map (fun u => SendMail (email u) articles) us) =
  map (fun u => (email u, articles)) us.
Proof. induction us as [|u us IH]; cbn; [| rewrite IH]; reflexivity. Qed.

(** X19: the manual trigger never sends an empty digest: every call of
    [send_news_email] it makes carries the same list, the digest or, when
    the digest is empty, the fallback list, with between 1 and 5 articles;
    it goes to a subscriber of the snapshot; and the article source is
    called once when there is a subscriber and not at all when there is
    none. *)
Theorem manual_trigger_sends_a_digest :
  forall (w : World) (db : DB),
    let calls := snd (test_send_now w db) in
    (forall m, In m (mails calls) ->
       snd m = manual_digest w /\
       1 <= List.length (snd m) <= 5 /\
       In (fst m) (map email (active_users db))) /\
    count is_fetch calls = match active_users db with [] => 0 | _ :: _ => 1 end.
Proof.
  intros w db calls. subst calls.
  destruct (active_users db) as [|u us] eqn:U.
  - unfold test_send_now. rewrite U. split; [intros m [] | reflexivity].
  - assert (Hu : active_users db <> []) by (rewrite U; discriminate).
    rewrite (test_send_now_unfold w db Hu), U.
    destruct (send_now_loop_calls w (manual_digest w) (u :: us) [] [FetchNews] 0)
      as [n [_ E]].
    destruct (send_now_loop w (manual_digest w) [] [FetchNews] 0 (u :: us))
      as [[results | text] calls]; cbn [snd] in *; subst calls.
    + split.
      * intros m Hm. cbn [app mails] in Hm. rewrite mails_calls in Hm.
        apply in_map_iff in Hm. destruct Hm as [v [<- Iv]]. cbn [fst snd].
        split; [reflexivity |]. split; [apply manual_digest_bounds |].
        apply in_map. eapply In_firstn; eauto.
      * cbn [app]. unfold count. cbn [filter is_fetch List.length].
        f_equal. induction (firstn n (u :: us)); [reflexivity | exact IHl].
    + split.
      * intros m Hm. cbn [app mails] in Hm. rewrite mails_calls in Hm.
        apply in_map_iff in Hm. destruct Hm as [v [<- Iv]]. cbn [fst snd].
        split; [reflexivity |]. split; [apply manual_digest_bounds |].
        apply in_map. eapply In_firstn; eauto.
      * cbn [app]. unfold count. cbn [filter is_fetch List.length].
        f_equal. induction (firstn n (u :: us)); [reflexivity | exact IHl].
Qed.

(** X20: unlike the job, the manual trigger stops at the first call that
    raises: it answers with the text of the exception, and the subscribers
    after the one whose call raised are not written to. *)
Theorem manual_trigger_stops_at_a_fault :
  forall (w : World) (db : DB) (j : nat) (u : User) (text : string),
    nth_error (active_users db) j = Some u ->
    outcome w (manual_digest w) j u = Raises text ->
    (forall i v, i < j -> nth_error (active_users db) i = Some v ->
                 returns (outcome w (manual_digest w) i v) = true) ->
    fst (test_send_now w db) = SendNowError text /\
    mails (snd (test_send_now w db)) =
    map (fun v => (email v, manual_digest w)) (firstn (S j) (active_users db)).
Proof.
  intros w db j u text Hj R Before.
  assert (Hu : active_users db <> []).
  { intros E. rewrite E in Hj. destruct j; discriminate. }
  rewrite (test_send_now_unfold w db Hu).
  rewrite (send_now_loop_abort w (manual_digest w) (active_users db)
                               [] [FetchNews] 0 j u text Hj R Before).
  cbn [fst snd app mails]. split; [reflexivity | apply mails_calls].
Qed.

Lemma manual_trigger_stops_at_a_fault_witness :
  fst (test_send_now sample_world sample_db) = SendNowError "boom" /\
  mails (snd (test_send_now sample_world sample_db)) =
  map (fun v => (email v, manual_digest sample_world))
      (firstn 2 (active_users sample_db)).
Proof.
  apply (manual_trigger_stops_at_a_fault
           sample_world sample_db 1 (mkUser 3 "c@x.io" 30 true (Some 7%Z)));
    [reflexivity | reflexivity |].
  intros [|i] v L H; [inversion H; reflexivity | lia].
Defined.

(** X21: when no call raises, the manual trigger writes to every subscriber
    of the snapshot, in order, and answers with one result per subscriber,
    the address with the flag its call returned, and with the number of
    articles sent. *)
Theorem manual_trigger_reports_everyone :
  forall (w : World) (db : DB),
    active_users db <> [] ->
    (forall i v, nth_error (active_users db) i = Some v ->
                 returns (outcome w (manual_digest w) i v) = true) ->
    exists results,
      fst (test_send_now w db) =
        SentNow results (List.length (manual_digest w)) /\
      map fst results = map email (active_users db) /\
      (forall i v, nth_error (active_users db) i = Some v ->
         nth_error results i = Some (email v, flag w (manual_digest w) i v) /\
         outcome w (manual_digest w) i v =
           Returns (flag w (manual_digest w) i v)) /\
      mails (snd (test_send_now w db)) =
        map (fun v => (email v, manual_digest w)) (active_users db).
Proof.
  intros w db Hu All.
  rewrite (test_send_now_unfold w db Hu).
  rewrite (send_now_loop_through w (manual_digest w) (active_users db)
                                 [] [FetchNews] 0 All).
  cbn [fst snd app mails]. eexists. split; [reflexivity |].
  split; [| split].
  - apply imap_map. reflexivity.
  - intros i v Hi. split.
    + exact (imap_nth_error
               (fun i v => (email v, flag w (manual_digest w) i v))
               _ 0 i v Hi).
    + specialize (All i v Hi). unfold flag.
      destruct (outcome w (manual_digest w) i v); [reflexivity | discriminate].
  - apply mails_calls.
Qed.

Lemma manual_trigger_reports_everyone_witness :
  exists results,
    fst (test_send_now quiet_world sample_db) =
      SentNow results (List.length (manual_digest quiet_world)) /\
    map fst results = map email (active_users sample_db) /\
    (forall i v, nth_error (active_users sample_db) i = Some v ->
       nth_error results i =
         Some (email v, flag quiet_world (manual_digest quiet_world) i v) /\
       outcome quiet_world (manual_digest quiet_world) i v =
         Returns (flag quiet_world (manual_digest quiet_world) i v)) /\
    mails (snd (test_send_now quiet_world sample_db)) =
      map (fun v => (email v, manual_digest quiet_world))
          (active_users sample_db).
Proof.
  apply (manual_trigger_reports_everyone quiet_world sample_db);
    [discriminate | reflexivity].
Defined.

End SendNowRoute.

(* ------------------------------------------------------------------ *)
(** ** The addresses that get stored *)

Section Stored.
Import Routes.

Lemma rstrip_last (s : string) :
  forall l c, list_ascii_of_string (rstrip s) = l ++ [c] -> is_space c = false.
Proof.
  induction s as [|a s IH]; intros l c H.
  - destruct l; discriminate.
  - rewrite rstrip_cons in H.
    destruct (rstrip s) as [|d r] eqn:R.
    + destruct (is_space a) eqn:Sp; cbn in H.
      * destruct l; discriminate.
      * destruct l as [|x l]; [inversion H; subst; exact Sp |].
        inversion H. destruct l; discriminate.
    + cbn [list_ascii_of_string] in H.
      destruct l as [|x l]; [discriminate |].
      inversion H; subst x.
      apply (IH l c). cbn [list_ascii_of_string]. assumption.
Qed.

Lemma lower_no_capital (s : string) :
  forallb (fun c => negb (between 65 90 c))
          (list_ascii_of_string (lower s)) = true.
Proof.
  induction s as [|c s IH]; cbn [lower list_ascii_of_string forallb];
    [reflexivity |].
  rewrite IH, andb_true_r.
  destruct c as [[|] [|] [|] [|] [|] [|] [|] [|]]; reflexivity.
Qed.

(** X22: an address that the subscription routes accept, that is, one
    that passes [validate_email] after [strip] and [lower], has no capital
    letter and nothing after its top-level part: the final newline that the
    pattern lets through cannot be there once the address is stripped. *)
Theorem accepted_address_is_in_stored_form :
  forall raw : string,
    validate_email (lower (strip raw)) = true ->
    stored_form (lower (strip raw)).
Proof.
  intros raw V. split; [| apply lower_no_capital].
  destruct (validate_email_sound _ V)
    as [loc [dom [tld [nl [E [NL [FL [ND [FD [L [FT N]]]]]]]]]]].
  exists loc, dom, tld.
  destruct N as [-> | ->].
  - rewrite app_nil_r in E. repeat split; assumption.
  - exfalso.
    assert (Sp : is_space "010" = false).
    { apply (rstrip_last (lstrip (lower raw))
                         (loc ++ "@"%char :: dom ++ "."%char :: tld)).
      fold (strip (lower raw)). rewrite strip_lower_commute, E.
      rewrite <- !app_assoc. cbn [app]. rewrite <- !app_assoc. reflexivity. }
    discriminate.
Qed.

Lemma accepted_address_is_in_stored_form_witness :
  stored_form (lower (strip "  B@X.io ")).
Proof.
  apply (accepted_address_is_in_stored_form "  B@X.io "). reflexivity.
Defined.

Example newline_is_let_through :
  validate_email "a@b.co
" = true.
Proof. reflexivity. Qed.

End Stored.
